(** * falkordb-py-orm: the relationship persistence and loading engine

    A shallow embedding of [falkordb_orm/metadata.py], [query_builder.py],
    [mapper.py], [relationships.py] and [repository.py], and the properties
    of saving, cascading, lazy loading and eager loading proved about it.

    Python objects live in a heap indexed by address ([id(obj)] is the
    address); the graph store is an abstract collaborator behind
    [graph.query]; every call of [graph.query] is recorded in a log. *)

From stdpp Require Import gmap strings list fin_maps.
From Stdlib Require Import ZArith Lia.

Local Open Scope string_scope.
Local Open Scope Z_scope.
Local Set Warnings "-register-all,-clear-no-such-hyp".

(** ** Python values *)

(** The values that reach the engine: [None], scalars, references to heap
    objects (entities, lazy proxies), the containers a relationship field
    may hold, and the nodes a result row carries. *)
Inductive Value : Type :=
| VNone
| VBool (b : bool)
| VInt (z : Z)
| VStr (s : string)
| VRef (a : nat)
| VList (l : list Value)
| VTuple (l : list Value)
| VSet (l : list Value)
| VNode (id : option Z) (properties : list (string * Value)).

Definition is_None (v : Value) : bool :=
  match v with VNone => true | _ => false end.

(** [isinstance(v, str)] *)
Definition isinstance_str (v : Value) : bool :=
  match v with VStr _ => true | _ => false end.

(** [isinstance(v, (list, tuple))] *)
Definition isinstance_list_tuple (v : Value) : bool :=
  match v with VList _ | VTuple _ => true | _ => false end.

(** The elements a [for x in v] loop visits when [v] is a list or a tuple. *)
Definition elements_of (v : Value) : list Value :=
  match v with VList l | VTuple l => l | _ => [] end.

(** ** Exceptions *)

Inductive Exn : Type :=
| StoreError (msg : string)
| QueryException (message : string) (cause : Exn)
| MappingException (message : string)
| InvalidEntityException (cls : string)
| ValueError (message : string)
| AttributeError (message : string)
| IndexError
| KeyError (key : string)
| TypeError (message : string).

(** The exception at the bottom of a [raise ... from e] chain. *)
Fixpoint root_cause (e : Exn) : Exn :=
  match e with
  | QueryException _ c => root_cause c
  | _ => e
  end.

Definition is_StoreError (e : Exn) : bool :=
  match e with StoreError _ => true | _ => false end.

Definition is_QueryException (e : Exn) : bool :=
  match e with QueryException _ _ => true | _ => false end.

(** ** metadata.py *)

(** A custom type converter: [to_graph] and [from_graph]; [None] is a raised
    conversion error. *)
Record TypeConverter : Type := {
  to_graph : Value -> option Value;
  from_graph : Value -> option Value
}.

Record PropertyMetadata : Type := {
  p_python_name : string;
  p_graph_name : string;
  p_python_type : string;
  p_converter : option TypeConverter;
  p_required : bool;
  p_is_id : bool;
  p_id_generator : option string;
  p_interned : bool
}.

Record RelationshipMetadata : Type := {
  python_name : string;
  relationship_type : string;
  direction : string;
  target_class : option string;
  target_class_name : option string;
  is_collection : bool;
  lazy : bool;
  cascade : bool
}.

Record EntityMetadata : Type := {
  entity_class : string;
  labels : list string;
  primary_label : string;
  properties : list PropertyMetadata;
  id_property : option PropertyMetadata;
  relationships : list RelationshipMetadata
}.

(** [EntityMetadata.get_relationship_by_python_name] *)
Fixpoint find_relationship (name : string) (rels : list RelationshipMetadata)
  : option RelationshipMetadata :=
  match rels with
  | [] => None
  | rel :: rest =>
      if String.eqb (python_name rel) name then Some rel
      else find_relationship name rest
  end.

Definition get_relationship_by_python_name (metadata : EntityMetadata) (name : string)
  : option RelationshipMetadata :=
  find_relationship name (relationships metadata).

(** [EntityMetadata.is_relationship_field] *)
Definition is_relationship_field (metadata : EntityMetadata) (name : string) : bool :=
  existsb (fun rel => String.eqb (python_name rel) name) (relationships metadata).

(** ** Cypher statements

    The query builder and the mapper produce Cypher text with f-strings. A
    statement is kept here in the shape the f-string has, with the holes as
    arguments; [cypher_text] fills the holes and gives the text itself. *)

Inductive RelPattern : Type := Outgoing | Incoming | Both.

Record FetchClause : Type := {
  f_hint : string;
  f_pattern : RelPattern;
  f_relationship_type : string;
  f_target_labels : string
}.

Inductive Cypher : Type :=
| CreateNode (labels_str : string) (set_clauses : list (string * bool))
| MergeNode (labels_str : string) (set_clauses : list (string * bool))
| MatchById (labels_str : string) (internal_id : bool)
| MatchAll (labels_str : string)
| RelationshipLoad (pattern : RelPattern) (rel_type : string) (target_labels : string)
| RelationshipCreate (pattern : RelPattern) (rel_type : string)
| EagerLoading (labels_str : string) (internal_id : bool) (fetched : list FetchClause)
| EagerLoadingAll (labels_str : string) (fetched : list FetchClause).

Definition nl : string := String (Ascii.ascii_of_nat 10) EmptyString.

(** [-[:T]->], [<-[:T]-], [-[:T]-] *)
Definition rel_pattern_text (p : RelPattern) (rel_type : string) : string :=
  match p with
  | Outgoing => "-[:" ++ rel_type ++ "]->"
  | Incoming => "<-[:" ++ rel_type ++ "]-"
  | Both => "-[:" ++ rel_type ++ "]-"
  end.

(** [n.g = intern($prop_g)] or [n.g = $prop_g] *)
Definition set_clause_text (c : string * bool) : string :=
  let (g, interned) := c in
  if interned then "n." ++ g ++ " = intern($prop_" ++ g ++ ")"
  else "n." ++ g ++ " = $prop_" ++ g.

Definition optional_match_text (c : FetchClause) : string :=
  "OPTIONAL MATCH (n)" ++ rel_pattern_text (f_pattern c) (f_relationship_type c)
    ++ "(" ++ f_hint c ++ "_target:" ++ f_target_labels c ++ ")".

Definition collect_column_text (c : FetchClause) : string :=
  "collect(DISTINCT " ++ f_hint c ++ "_target) as " ++ f_hint c.

Definition eager_text (head : list string) (fetched : list FetchClause) : string :=
  String.concat nl
    (head ++ map optional_match_text fetched
       ++ [("RETURN " ++ String.concat ", " ("n" :: map collect_column_text fetched))%string])%list.

Definition indent8 : string := "        ".
Definition indent12 : string := "            ".

Definition cypher_text (c : Cypher) : string :=
  match c with
  | CreateNode l [] => "CREATE (n:" ++ l ++ ") RETURN n, id(n) as node_id"
  | CreateNode l cs =>
      "CREATE (n:" ++ l ++ ") SET " ++ String.concat ", " (map set_clause_text cs)
        ++ " RETURN n, id(n) as node_id"
  | MergeNode l [] =>
      nl ++ indent12 ++ "MERGE (n:" ++ l ++ " {id: $id})"
        ++ nl ++ indent12 ++ "RETURN n, id(n) as node_id"
        ++ nl ++ indent12
  | MergeNode l cs =>
      nl ++ indent12 ++ "MERGE (n:" ++ l ++ " {id: $id})"
        ++ nl ++ indent12 ++ "SET " ++ String.concat ", " (map set_clause_text cs)
        ++ nl ++ indent12 ++ "RETURN n, id(n) as node_id"
        ++ nl ++ indent12
  | MatchById l true => "MATCH (n:" ++ l ++ ") WHERE id(n) = $id RETURN n"
  | MatchById l false => "MATCH (n:" ++ l ++ " {id: $id}) RETURN n"
  | MatchAll l => "MATCH (n:" ++ l ++ ") RETURN n"
  | RelationshipLoad p t tl =>
      nl ++ indent8 ++ "MATCH (source)" ++ rel_pattern_text p t ++ "(target:" ++ tl ++ ")"
        ++ nl ++ indent8 ++ "WHERE id(source) = $source_id"
        ++ nl ++ indent8 ++ "RETURN target"
        ++ nl ++ indent8
  | RelationshipCreate p t =>
      nl ++ indent8 ++ "MATCH (source), (target)"
        ++ nl ++ indent8 ++ "WHERE id(source) = $source_id AND id(target) = $target_id"
        ++ nl ++ indent8 ++ "CREATE (source)" ++ rel_pattern_text p t ++ "(target)"
        ++ nl ++ indent8
  | EagerLoading l internal fetched =>
      eager_text ["MATCH (n:" ++ l ++ ")";
                  if internal then "WHERE id(n) = $id" else "WHERE n.id = $id"] fetched
  | EagerLoadingAll l fetched =>
      eager_text ["MATCH (n:" ++ l ++ ")"] fetched
  end.

(** A query: the statement and its named parameters (a Python dict). *)
Abbreviation Params := (gmap string Value).
Definition Query : Type := (Cypher * Params)%type.

(** A result record: FalkorDB rows are lists, indexed by position; the
    mapper also accepts dict rows, indexed by column name. *)
Inductive Row : Type :=
| RList (columns : list Value)
| RDict (columns : list (string * Value)).

Fixpoint assoc_get (k : string) (d : list (string * Value)) : option Value :=
  match d with
  | [] => None
  | (k', v) :: rest => if String.eqb k' k then Some v else assoc_get k rest
  end.

(** ** Heap objects *)

Inductive Obj : Type :=
| Entity (cls : string) (attrs : gmap string Value)
| LazyList (source_id : Z) (relationship_meta : RelationshipMetadata)
    (target : string) (loaded : bool) (items : list Value)
| LazySingle (source_id : Z) (relationship_meta : RelationshipMetadata)
    (target : string) (loaded : bool) (item : Value)
| RelationshipManager (entity_tracker : gset (nat * Z)).

(** ** Outcomes of a call *)

(** A call returns, raises, or (in the model only) runs out of recursion
    fuel; [OutOfFuel] is not a Python exception and no handler sees it. *)
Inductive Res (A : Type) : Type :=
| Ret (a : A)
| Raise (e : Exn)
| OutOfFuel.
Arguments Ret {A} a.
Arguments Raise {A} e.
Arguments OutOfFuel {A}.

Definition labels_str (metadata : EntityMetadata) : string :=
  String.concat ":" (labels metadata).

(** The three directions a relationship can declare; anything else is the
    [else] branch of the builders. *)
Definition pattern_of_direction (d : string) : option RelPattern :=
  if String.eqb d "OUTGOING" then Some Outgoing
  else if String.eqb d "INCOMING" then Some Incoming
  else if String.eqb d "BOTH" then Some Both
  else None.

Definition has_id_generator (p : PropertyMetadata) : bool :=
  match p_id_generator p with Some _ => true | None => false end.

(** [metadata.id_property and metadata.id_property.id_generator is not None] *)
Definition uses_internal_id (metadata : EntityMetadata) : bool :=
  match id_property metadata with
  | Some p => has_id_generator p
  | None => false
  end.

(** ** The collaborators of the engine *)

(** The schema provider and the type registry.
    [get_entity_metadata] is [metadata.get_entity_metadata]: the
    [__node_metadata__] a class carries, [None] for a class that is not
    decorated with [@node]. [convert_to_graph] and [convert_from_graph] are
    those of [TypeRegistry] on a value that is not [None], by the declared
    Python type; [None] is a raised conversion error. *)
Class Schema : Type := {
  get_entity_metadata : string -> option EntityMetadata;
  convert_to_graph : Value -> string -> option Value;
  convert_from_graph : Value -> string -> option Value
}.

(** The graph store behind [graph.query(cypher, params)]: from its state
    and a query, the new state and either the message of the error it
    raises or the [result_set] it returns. *)
Class Store : Type := {
  G : Type;
  graph_query : G -> Cypher -> Params -> G * (string + list Row)
}.

(** ** The engine *)

Section Engine.

Context {schema : Schema} {store : Store}.

(** *** query_builder.py *)

Definition build_match_by_id_query (metadata : EntityMetadata) (entity_id : Value)
  : Query :=
  (MatchById (labels_str metadata) (uses_internal_id metadata),
   {[ "id" := entity_id ]}).

Definition build_match_all_query (metadata : EntityMetadata) : Query :=
  (MatchAll (labels_str metadata), ∅).

Definition build_relationship_load_query
    (relationship_meta : RelationshipMetadata) (source_id : Z) (target : string)
  : Exn + Query :=
  match get_entity_metadata target with
  | None => inl (ValueError "Target class is not a valid entity")
  | Some target_metadata =>
      match pattern_of_direction (direction relationship_meta) with
      | None => inl (ValueError "Invalid direction")
      | Some p =>
          inr (RelationshipLoad p (relationship_type relationship_meta)
                 (labels_str target_metadata),
               {[ "source_id" := VInt source_id ]})
      end
  end.

Definition build_relationship_create_query
    (relationship_meta : RelationshipMetadata) (source_id : Z) (target_id : Value)
  : Exn + Query :=
  match pattern_of_direction (direction relationship_meta) with
  | None => inl (ValueError "Invalid direction")
  | Some p =>
      inr (RelationshipCreate p (relationship_type relationship_meta),
           <[ "target_id" := target_id ]> {[ "source_id" := VInt source_id ]})
  end.

(** The body of the [for hint in fetch_hints] loop of both eager builders:
    the clause a hint contributes, or nothing where the loop [continue]s. *)
Definition fetch_clause (metadata : EntityMetadata) (hint : string)
  : option FetchClause :=
  match get_relationship_by_python_name metadata hint with
  | None => None
  | Some rel_meta =>
      match target_class rel_meta ≫= get_entity_metadata with
      | None => None
      | Some target_metadata =>
          match pattern_of_direction (direction rel_meta) with
          | None => None
          | Some p =>
              Some {| f_hint := hint; f_pattern := p;
                      f_relationship_type := relationship_type rel_meta;
                      f_target_labels := labels_str target_metadata |}
          end
      end
  end.

Definition fetch_clauses (metadata : EntityMetadata) (fetch_hints : list string)
  : list FetchClause :=
  omap (fetch_clause metadata) fetch_hints.

Definition build_eager_loading_query
    (metadata : EntityMetadata) (entity_id : Value) (fetch_hints : list string)
  : Query :=
  (EagerLoading (labels_str metadata) (uses_internal_id metadata)
     (fetch_clauses metadata fetch_hints),
   {[ "id" := entity_id ]}).

Definition build_eager_loading_query_all
    (metadata : EntityMetadata) (fetch_hints : list string) : Query :=
  (EagerLoadingAll (labels_str metadata) (fetch_clauses metadata fetch_hints), ∅).

(** *** The world and the monad of the engine *)

Record World : Type := {
  heap : list Obj;
  graph : G;
  log : list (Query * bool)
}.

Definition M (A : Type) : Type := World -> Res A * World.

Definition ret {A} (a : A) : M A := fun w => (Ret a, w).
Definition raise {A} (e : Exn) : M A := fun w => (Raise e, w).
Definition timeout {A} : M A := fun w => (OutOfFuel, w).

Definition bind {A B} (c : M A) (k : A -> M B) : M B := fun w =>
  match c w with
  | (Ret a, w') => k a w'
  | (Raise e, w') => (Raise e, w')
  | (OutOfFuel, w') => (OutOfFuel, w')
  end.

(** [try: c except Exception as e: raise h(e) from e] *)
Definition try_except_raise {A} (c : M A) (h : Exn -> Exn) : M A := fun w =>
  match c w with
  | (Raise e, w') => (Raise (h e), w')
  | r => r
  end.

(** [try: c finally: f], for a cleanup [f] that does not raise. *)
Definition try_finally {A} (c : M A) (f : World -> World) : M A := fun w =>
  match c w with
  | (Ret a, w') => (Ret a, f w')
  | (Raise e, w') => (Raise e, f w')
  | (OutOfFuel, w') => (OutOfFuel, w')
  end.

Definition lift_exn {A} (r : Exn + A) : M A :=
  match r with inl e => raise e | inr a => ret a end.

Notation "x <- c ;; k" := (bind c (fun x => k))
  (at level 100, c at next level, right associativity).
Notation "c ;;; k" := (bind c (fun _ => k))
  (at level 100, right associativity).

(** [for x in l: body(x)] *)
Fixpoint for_each {A} (l : list A) (body : A -> M unit) : M unit :=
  match l with
  | [] => ret tt
  | x :: rest => body x ;;; for_each rest body
  end.

(** [[f(x) for x in l]] *)
Fixpoint map_M {A B} (f : A -> M B) (l : list A) : M (list B) :=
  match l with
  | [] => ret []
  | x :: rest => y <- f x ;; ys <- map_M f rest ;; ret (y :: ys)
  end.

Definition get_world : M World := fun w => (Ret w, w).

Definition set_heap (h : list Obj) : M unit := fun w =>
  (Ret tt, {| heap := h; graph := graph w; log := log w |}).

(** A new object; its address is returned. *)
Definition alloc (o : Obj) : M nat := fun w =>
  (Ret (length (heap w)),
   {| heap := (heap w ++ [o])%list; graph := graph w; log := log w |}).

(** [graph.query(cypher, params)]: the store answers or raises, and the
    call is logged either way. *)
Definition query (q : Query) : M (list Row) := fun w =>
  match graph_query (graph w) (fst q) (snd q) with
  | (g', inl msg) =>
      (Raise (StoreError msg),
       {| heap := heap w; graph := g'; log := (log w ++ [(q, false)])%list |})
  | (g', inr rs) =>
      (Ret rs, {| heap := heap w; graph := g';
                 log := (log w ++ [(q, true)])%list |})
  end.

(** The attributes of an entity instance; an object that is no entity
    instance has none of the declared attributes. *)
Definition attrs_of (h : list Obj) (a : nat) : gmap string Value :=
  match h !! a with
  | Some (Entity _ attrs) => attrs
  | _ => ∅
  end.

(** [getattr(entity, name, None)] *)
Definition getattr_in (h : list Obj) (v : Value) (name : string) : Value :=
  match v with
  | VRef a => default VNone (attrs_of h a !! name)
  | _ => VNone
  end.

Definition getattr (v : Value) (name : string) : M Value := fun w =>
  (Ret (getattr_in (heap w) v name), w).

(** [setattr(entity, name, value)] *)
Definition setattr_in (h : list Obj) (a : nat) (name : string) (value : Value)
  : list Obj :=
  match h !! a with
  | Some (Entity cls attrs) => <[ a := Entity cls (<[ name := value ]> attrs) ]> h
  | _ => h
  end.

Definition setattr (a : nat) (name : string) (value : Value) : M unit := fun w =>
  (Ret tt, {| heap := setattr_in (heap w) a name value;
              graph := graph w; log := log w |}).

(** [type(v)], when [v] is an instance of a user class. *)
Definition class_of (h : list Obj) (v : Value) : option string :=
  match v with
  | VRef a => match h !! a with Some (Entity cls _) => Some cls | _ => None end
  | _ => None
  end.

(** [type(entity).__name__] of an entity instance. *)
Definition entity_class_of_ref (h : list Obj) (a : nat) : string :=
  default "" (class_of h (VRef a)).

(** [isinstance(v, (LazyList, LazySingle))] *)
Definition is_lazy_proxy (h : list Obj) (v : Value) : bool :=
  match v with
  | VRef a =>
      match h !! a with
      | Some (LazyList _ _ _ _ _) | Some (LazySingle _ _ _ _ _) => true
      | _ => false
      end
  | _ => false
  end.

(** *** mapper.py: serialising an entity *)

(** [EntityMapper.get_entity_metadata], without its cache. *)
Definition mapper_get_entity_metadata (cls : option string) : Exn + EntityMetadata :=
  match cls ≫= get_entity_metadata with
  | Some metadata => inr metadata
  | None => inl (InvalidEntityException (default "" cls))
  end.

(** The value a property is stored as: the custom converter if there is
    one, the type registry otherwise. *)
Definition graph_value_of (prop : PropertyMetadata) (value : Value) : option Value :=
  match p_converter prop with
  | Some c => to_graph c value
  | None => convert_to_graph value (p_python_type prop)
  end.

(** One round of the loop of [map_to_properties]. *)
Definition map_property (metadata : EntityMetadata) (attrs : gmap string Value)
    (prop : PropertyMetadata) (props : gmap string Value)
  : Exn + gmap string Value :=
  if is_relationship_field metadata (p_python_name prop) then inr props
  else
    let value := default VNone (attrs !! p_python_name prop) in
    if p_is_id prop && has_id_generator prop && is_None value then inr props
    else if is_None value then inr props
    else
      match graph_value_of prop value with
      | Some graph_value => inr (<[ p_graph_name prop := graph_value ]> props)
      | None => inl (ValueError "conversion to graph failed")
      end.

Fixpoint map_properties (metadata : EntityMetadata) (attrs : gmap string Value)
    (todo : list PropertyMetadata) (props : gmap string Value)
  : Exn + gmap string Value :=
  match todo with
  | [] => inr props
  | prop :: rest =>
      match map_property metadata attrs prop props with
      | inl e => inl e
      | inr props' => map_properties metadata attrs rest props'
      end
  end.

(** [EntityMapper.map_to_properties], on the metadata and the attributes of
    the entity. *)
Definition map_to_properties (metadata : EntityMetadata) (attrs : gmap string Value)
  : Exn + gmap string Value :=
  map_properties metadata attrs (properties metadata) ∅.

(** The loop of [map_to_cypher_create] and [map_to_cypher_merge] that
    builds the SET clauses and the parameters. *)
Fixpoint set_clauses_of (skip_id : bool) (props : gmap string Value)
    (todo : list PropertyMetadata) (acc : list (string * bool) * Params)
  : list (string * bool) * Params :=
  match todo with
  | [] => acc
  | prop :: rest =>
      if skip_id && p_is_id prop then set_clauses_of skip_id props rest acc
      else
        match props !! p_graph_name prop, props !! p_python_name prop with
        | None, None => set_clauses_of skip_id props rest acc
        | g, p =>
            let value := default (default VNone p) g in
            set_clauses_of skip_id props rest
              ((fst acc ++ [(p_graph_name prop, p_interned prop && isinstance_str value)])%list,
               <[ "prop_" ++ p_graph_name prop := value ]> (snd acc))
        end
  end.

Definition map_to_cypher_create_of (metadata : EntityMetadata)
    (attrs : gmap string Value) : Exn + Query :=
  match map_to_properties metadata attrs with
  | inl e => inl e
  | inr props =>
      let '(set_clauses, params) :=
        set_clauses_of false props (properties metadata) ([], ∅) in
      inr (CreateNode (labels_str metadata) set_clauses, params)
  end.

Definition map_to_cypher_merge_of (metadata : EntityMetadata)
    (attrs : gmap string Value) : Exn + Query :=
  match id_property metadata with
  | None => inl (MappingException "Entity has no ID property")
  | Some idp =>
      let entity_id := default VNone (attrs !! p_python_name idp) in
      if is_None entity_id then inl (MappingException "Entity has no ID value")
      else
        match map_to_properties metadata attrs with
        | inl e => inl e
        | inr props =>
            let '(set_clauses, params) :=
              set_clauses_of true props (properties metadata)
                ([], {[ "id" := entity_id ]}) in
            inr (MergeNode (labels_str metadata) set_clauses, params)
        end
  end.

(** [EntityMapper.map_to_cypher_create(entity)] *)
Definition map_to_cypher_create (entity : nat) : M Query :=
  w <- get_world ;;
  metadata <- lift_exn (mapper_get_entity_metadata (class_of (heap w) (VRef entity))) ;;
  lift_exn (map_to_cypher_create_of metadata (attrs_of (heap w) entity)).

(** [EntityMapper.map_to_cypher_merge(entity)] *)
Definition map_to_cypher_merge (entity : nat) : M Query :=
  w <- get_world ;;
  metadata <- lift_exn (mapper_get_entity_metadata (class_of (heap w) (VRef entity))) ;;
  lift_exn (map_to_cypher_merge_of metadata (attrs_of (heap w) entity)).

(** [EntityMapper.update_entity_id(entity, node_id)] *)
Definition update_entity_id (entity : nat) (node_id : Z) : M unit :=
  w <- get_world ;;
  metadata <- lift_exn (mapper_get_entity_metadata (class_of (heap w) (VRef entity))) ;;
  match id_property metadata with
  | Some idp => setattr entity (p_python_name idp) (VInt node_id)
  | None => ret tt
  end.

(** *** mapper.py: hydrating a node *)

Definition node_internal_id (node : Value) : option Z :=
  match node with VNode i _ => i | _ => None end.

Definition node_properties (node : Value) : list (string * Value) :=
  match node with VNode _ ps => ps | _ => [] end.

(** The Python value of a stored property. *)
Definition python_value_of (prop : PropertyMetadata) (graph_value : Value)
  : option Value :=
  match p_converter prop with
  | Some c => from_graph c graph_value
  | None =>
      if is_None graph_value then Some VNone
      else convert_from_graph graph_value (p_python_type prop)
  end.

(** The loop of [map_from_node] that fills [kwargs]. *)
Fixpoint node_kwargs (node : Value) (todo : list PropertyMetadata)
    (kwargs : gmap string Value) : Exn + gmap string Value :=
  match todo with
  | [] => inr kwargs
  | prop :: rest =>
      match assoc_get (p_graph_name prop) (node_properties node) with
      | Some graph_value =>
          match python_value_of prop graph_value with
          | Some python_value =>
              node_kwargs node rest (<[ p_python_name prop := python_value ]> kwargs)
          | None => inl (ValueError "conversion from graph failed")
          end
      | None =>
          match node_internal_id node with
          | Some internal_id =>
              if p_is_id prop && has_id_generator prop
              then node_kwargs node rest
                     (<[ p_python_name prop := VInt internal_id ]> kwargs)
              else node_kwargs node rest (<[ p_python_name prop := VNone ]> kwargs)
          | None => node_kwargs node rest (<[ p_python_name prop := VNone ]> kwargs)
          end
      end
  end.

(** [relationships.create_lazy_proxy]: a new, unloaded proxy. *)
Definition create_lazy_proxy (source_id : Z) (relationship_meta : RelationshipMetadata)
    (target : string) : M nat :=
  if is_collection relationship_meta
  then alloc (LazyList source_id relationship_meta target false [])
  else alloc (LazySingle source_id relationship_meta target false VNone).

(** [EntityMapper._initialize_lazy_relationships], for a mapper that has
    its graph and query builder (the one a repository constructs). *)
Definition initialize_lazy_relationships (entity : nat) (entity_id : Z) : M unit :=
  w <- get_world ;;
  metadata <- lift_exn (mapper_get_entity_metadata (class_of (heap w) (VRef entity))) ;;
  for_each (relationships metadata) (fun rel_meta =>
    match target_class rel_meta with
    | None => ret tt
    | Some target =>
        proxy <- create_lazy_proxy entity_id rel_meta target ;;
        setattr entity (python_name rel_meta) (VRef proxy)
    end).

(** [EntityMapper.map_from_node]; constructing the instance from [kwargs]
    is taken to succeed, so the [MappingException] of the source's handler
    wraps only what lazy initialisation raises. *)
Definition map_from_node (node : Value) (cls : string) : M nat :=
  metadata <- lift_exn (mapper_get_entity_metadata (Some cls)) ;;
  kwargs <- lift_exn (node_kwargs node (properties metadata) ∅) ;;
  try_except_raise
    (entity <- alloc (Entity cls kwargs) ;;
     match node_internal_id node with
     | Some internal_id => initialize_lazy_relationships entity internal_id
     | None => ret tt
     end ;;;
     ret entity)
    (fun e => MappingException "Failed to create instance").

(** [record[0]] for a list record (no header is passed by the callers
    modelled here), [record[var_name]] for a dict record. *)
Definition record_node (record : Row) (var_name : string) : Exn + Value :=
  match record with
  | RList [] => inl IndexError
  | RList (node :: _) => inr node
  | RDict d =>
      match assoc_get var_name d with
      | Some node => inr node
      | None => inl (KeyError var_name)
      end
  end.

(** [EntityMapper.map_from_record] *)
Definition map_from_record (record : Row) (cls : string) (var_name : string) : M nat :=
  node <- lift_exn (record_node record var_name) ;;
  map_from_node node cls.

(** [hint in record] *)
Definition hint_in_record (hint : string) (record : Row) : bool :=
  match record with
  | RList l => existsb (fun v => match v with VStr s => String.eqb s hint | _ => false end) l
  | RDict d => match assoc_get hint d with Some _ => true | None => false end
  end.

(** [record[hint]] *)
Definition record_get (record : Row) (hint : string) : Exn + Value :=
  match record with
  | RList _ => inl (TypeError "list indices must be integers")
  | RDict d =>
      match assoc_get hint d with
      | Some v => inr v
      | None => inl (KeyError hint)
      end
  end.

(** [[n for n in related_nodes if n is not None]] *)
Definition related_nodes_of (v : Value) : Exn + list Value :=
  match v with
  | VNone => inr []
  | VList l | VTuple l | VSet l => inr (filter (fun n => is_None n = false) l)
  | _ => inl (TypeError "object is not iterable")
  end.

(** [EntityMapper.map_with_relationships] *)
Definition map_with_relationships (record : Row) (cls : string)
    (fetch_hints : list string) : M nat :=
  node <- lift_exn (record_node record "n") ;;
  entity <- map_from_node node cls ;;
  metadata <- lift_exn (mapper_get_entity_metadata (Some cls)) ;;
  for_each fetch_hints (fun hint =>
    if negb (hint_in_record hint record) then ret tt
    else
      match get_relationship_by_python_name metadata hint with
      | None => ret tt
      | Some rel_meta =>
          related <- lift_exn (record_get record hint) ;;
          related_nodes <- lift_exn (related_nodes_of related) ;;
          match target_class rel_meta with
          | None => ret tt
          | Some target =>
              related_entities <- map_M (fun n => map_from_node n target) related_nodes ;;
              if is_collection rel_meta
              then setattr entity (python_name rel_meta)
                     (VList (map VRef related_entities))
              else setattr entity (python_name rel_meta)
                     (match related_entities with
                      | first :: _ => VRef first
                      | [] => VNone
                      end)
          end
      end) ;;;
  ret entity.

(** *** relationships.py: the lazy proxies *)









(** *** relationships.py: the relationship manager *)

(** [Repository]: the entity class, its metadata and the relationship
    manager constructed with it (an object of the heap, since it carries
    the mutable [_entity_tracker]). *)
Record Repository : Type := {
  repo_entity_class : string;
  repo_metadata : EntityMetadata;
  relationship_manager : nat
}.

(** [Repository.__init__]: the metadata is looked up, and a new
    [RelationshipManager] is constructed with an empty tracker. *)
Definition new_Repository (cls : string) : M Repository :=
  metadata <- lift_exn (mapper_get_entity_metadata (Some cls)) ;;
  manager <- alloc (RelationshipManager ∅) ;;
  ret {| repo_entity_class := cls; repo_metadata := metadata;
         relationship_manager := manager |}.

(** [self._entity_tracker] *)
Definition tracker_of (h : list Obj) (manager : nat) : gset (nat * Z) :=
  match h !! manager with
  | Some (RelationshipManager tracker) => tracker
  | _ => ∅
  end.

Definition set_tracker_in (h : list Obj) (manager : nat) (tracker : gset (nat * Z))
  : list Obj :=
  match h !! manager with
  | Some (RelationshipManager _) => <[ manager := RelationshipManager tracker ]> h
  | _ => h
  end.

(** [self._entity_tracker.add(key)] *)
Definition tracker_add (manager : nat) (key : nat * Z) : M unit := fun w =>
  (Ret tt,
   {| heap := set_tracker_in (heap w) manager ({[ key ]} ∪ tracker_of (heap w) manager);
      graph := graph w; log := log w |}).

(** [self._entity_tracker.discard(key)] *)
Definition tracker_discard (manager : nat) (key : nat * Z) (w : World) : World :=
  {| heap := set_tracker_in (heap w) manager (tracker_of (heap w) manager ∖ {[ key ]});
     graph := graph w; log := log w |}.

(** [RelationshipManager._create_relationship_edge] *)
Definition create_relationship_edge (source_id : Z) (target_id : Value)
    (rel_meta : RelationshipMetadata) : M unit :=
  q <- lift_exn (build_relationship_create_query rel_meta source_id target_id) ;;
  query q ;;;
  ret tt.

(** [RelationshipManager._delete_relationship_edges]: it asks the query
    builder for [build_relationship_delete_query], which [QueryBuilder]
    does not define. *)
Definition delete_relationship_edges (source_id : Z) (rel_meta : RelationshipMetadata)
  : M unit :=
  raise (AttributeError
           "'QueryBuilder' object has no attribute 'build_relationship_delete_query'").

Section OpenRecursion.

(** [Repository.save], as the relationship manager calls it on the
    temporary repository of a cascade. *)
Variable save : Repository -> nat -> M nat.

(** [RelationshipManager._get_or_save_related_entity]: the id of the
    related entity, or [None]. *)
Definition get_or_save_related_entity (entity : Value)
    (rel_meta : RelationshipMetadata) : M Value :=
  if is_None entity then ret VNone
  else
    w <- get_world ;;
    entity_metadata <- lift_exn (mapper_get_entity_metadata (class_of (heap w) entity)) ;;
    match id_property entity_metadata, entity with
    | Some idp, VRef a =>
        entity_id <- getattr entity (p_python_name idp) ;;
        if negb (is_None entity_id) then ret entity_id
        else if cascade rel_meta then
          target_repo <- new_Repository (entity_class_of_ref (heap w) a) ;;
          saved_entity <- save target_repo a ;;
          getattr (VRef saved_entity) (p_python_name idp)
        else ret VNone
    | _, _ => ret VNone
    end.

(** The [target_id is not None] test and the edge creation that follow
    each call of [_get_or_save_related_entity]. *)
Definition link_related_entity (source_id : Z) (rel_meta : RelationshipMetadata)
    (related_entity : Value) : M unit :=
  target_id <- get_or_save_related_entity related_entity rel_meta ;;
  if negb (is_None target_id)
  then create_relationship_edge source_id target_id rel_meta
  else ret tt.

(** One round of the [for rel_meta in metadata.relationships] loop of
    [save_relationships]. *)
Definition save_relationship_field (source_entity : nat) (source_id : Z)
    (is_update : bool) (rel_meta : RelationshipMetadata) : M unit :=
  rel_value <- getattr (VRef source_entity) (python_name rel_meta) ;;
  if is_None rel_value then ret tt
  else
    w <- get_world ;;
    if is_lazy_proxy (heap w) rel_value then ret tt
    else
      (if is_update then delete_relationship_edges source_id rel_meta else ret tt) ;;;
      if is_collection rel_meta then
        if negb (isinstance_list_tuple rel_value) then ret tt
        else for_each (elements_of rel_value) (link_related_entity source_id rel_meta)
      else link_related_entity source_id rel_meta rel_value.

(** [RelationshipManager.save_relationships] *)
Definition save_relationships (manager : nat) (source_entity : nat) (source_id : Z)
    (metadata : EntityMetadata) (is_update : bool) : M unit :=
  w <- get_world ;;
  let entity_key := (source_entity, source_id) in
  if decide (entity_key ∈ tracker_of (heap w) manager) then ret tt
  else
    tracker_add manager entity_key ;;;
    try_finally
      (for_each (relationships metadata)
         (save_relationship_field source_entity source_id is_update))
      (tracker_discard manager entity_key).

(** [record[1]], the [node_id] column of the row a create or merge
    statement returns; the store's [id(n)] is an integer. *)
Definition record_node_id (record : Row) : Exn + Z :=
  match record with
  | RList (_ :: VInt node_id :: _) => inr node_id
  | RList (_ :: _ :: _) => inl (TypeError "node id is not an integer")
  | RList _ => inl IndexError
  | RDict _ => inl (KeyError "1")
  end.

(** The body of [Repository.save]. *)
Definition save_body (self : Repository) (entity : nat) : M nat :=
  has_id <- match id_property (repo_metadata self) with
            | Some idp =>
                entity_id <- getattr (VRef entity) (p_python_name idp) ;;
                ret (negb (is_None entity_id))
            | None => ret false
            end ;;
  try_except_raise
    (q <- (if has_id : bool then map_to_cypher_merge entity
           else map_to_cypher_create entity) ;;
     result_set <- query q ;;
     match result_set with
     | record :: _ =>
         node_id <- lift_exn (record_node_id record) ;;
         (if negb has_id && bool_decide (is_Some (id_property (repo_metadata self)))
          then update_entity_id entity node_id
          else ret tt) ;;;
         (match relationships (repo_metadata self) with
          | _ :: _ =>
              save_relationships (relationship_manager self) entity node_id
                (repo_metadata self) false
          | [] => ret tt
          end)
     | [] => ret tt
     end ;;;
     ret entity)
    (QueryException "Failed to save entity").

End OpenRecursion.

(** [Repository.save]; the fuel bounds the depth of cascading saves. *)
Fixpoint save (fuel : nat) (self : Repository) (entity : nat) : M nat :=
  match fuel with
  | O => timeout
  | S fuel' => save_body (save fuel') self entity
  end.

(** [if fetch:] for an optional list of relationship names. *)
Definition fetch_requested (fetch : option (list string)) : option (list string) :=
  match fetch with
  | Some (hint :: hints) => Some (hint :: hints)
  | _ => None
  end.

(** [Repository.find_by_id] *)
Definition find_by_id (self : Repository) (entity_id : Value)
    (fetch : option (list string)) : M (option nat) :=
  try_except_raise
    (match fetch_requested fetch with
     | Some hints =>
         result_set <- query (build_eager_loading_query (repo_metadata self) entity_id hints) ;;
         match result_set with
         | [] => ret None
         | record :: _ =>
             entity <- map_with_relationships record (repo_entity_class self) hints ;;
             ret (Some entity)
         end
     | None =>
         result_set <- query (build_match_by_id_query (repo_metadata self) entity_id) ;;
         match result_set with
         | [] => ret None
         | record :: _ =>
             entity <- map_from_record record (repo_entity_class self) "n" ;;
             ret (Some entity)
         end
     end)
    (QueryException "Failed to find entity by ID").


End Engine.


(** ** Stores *)

(** The store the repository's tests put behind [graph.query]
    ([mock_query]): it counts the calls and answers every query with one row
    [[Mock(), call_count]]. *)
Module MockStore.

Definition mock_query (call_count : Z) (cypher : Cypher) (params : Params)
  : Z * (string + list Row) :=
  (call_count + 1, inr [RList [VNode None []; VInt (call_count + 1)]]).

#[local] Instance store : Store := {| G := Z; graph_query := mock_query |}.

End MockStore.

(** A reference semantics of the graph store for the statements the engine
    issues: a property graph of nodes and directed, typed edges. FalkorDB
    itself is outside the repository; labels are compared as the joined
    label string, and [faults] makes the store raise. *)
Module RefStore.

Record Node : Type := {
  n_id : Z;
  n_labels : string;
  n_properties : list (string * Value)
}.

Record Edge : Type := {
  e_source : Z;
  e_type : string;
  e_target : Z
}.

(** [budget]: how many more queries the store answers before it starts
    raising; [None] is a store that never fails. *)
Record Graph : Type := {
  nodes : list Node;
  edges : list Edge;
  next_id : Z;
  budget : option nat
}.



(** Equality of the primitive values a property or an id can hold. *)
Definition prim_eqb (a b : Value) : bool :=
  match a, b with
  | VInt x, VInt y => Z.eqb x y
  | VStr x, VStr y => String.eqb x y
  | VBool x, VBool y => Bool.eqb x y
  | _, _ => false
  end.

Fixpoint assoc_set (k : string) (v : Value) (d : list (string * Value))
  : list (string * Value) :=
  match d with
  | [] => [(k, v)]
  | (k', v') :: rest =>
      if String.eqb k' k then (k, v) :: rest else (k', v') :: assoc_set k v rest
  end.

Definition node_value (n : Node) : Value :=
  VNode (Some (n_id n)) (n_properties n).

(** [SET n.g = $prop_g, ...] *)
Definition apply_set (params : Params) (set_clauses : list (string * bool))
    (props : list (string * Value)) : list (string * Value) :=
  fold_left (fun ps c => assoc_set (fst c) (default VNone (params !! ("prop_" ++ fst c))) ps)
    set_clauses props.

Definition has_property (k : string) (v : Value) (n : Node) : bool :=
  match assoc_get k (n_properties n) with
  | Some v' => prim_eqb v' v
  | None => false
  end.

Definition has_id (v : Value) (n : Node) : bool := prim_eqb (VInt (n_id n)) v.

Definition has_labels (l : string) (n : Node) : bool := String.eqb (n_labels n) l.

(** The ids of the nodes a relationship pattern reaches from [source]. *)
Definition related_ids (g : Graph) (p : RelPattern) (rel_type : string) (source : Z)
  : list Z :=
  let out := map e_target
               (filter (fun e => Z.eqb (e_source e) source && String.eqb (e_type e) rel_type = true)
                  (edges g)) in
  let inc := map e_source
               (filter (fun e => Z.eqb (e_target e) source && String.eqb (e_type e) rel_type = true)
                  (edges g)) in
  match p with
  | Outgoing => out
  | Incoming => inc
  | Both => out ++ inc
  end.

Definition related_nodes (g : Graph) (p : RelPattern) (rel_type : string)
    (target_labels : string) (source : Z) : list Node :=
  filter (fun n => has_labels target_labels n
                   && bool_decide (n_id n ∈ related_ids g p rel_type source) = true)
    (nodes g).

Definition eager_row (g : Graph) (fetched : list FetchClause) (n : Node) : Row :=
  RList (node_value n ::
         map (fun c => VList (map node_value
                                (related_nodes g (f_pattern c) (f_relationship_type c)
                                   (f_target_labels c) (n_id n))))
             fetched).

Definition with_nodes (g : Graph) (ns : list Node) (next : Z) : Graph :=
  {| nodes := ns; edges := edges g; next_id := next; budget := budget g |}.

Definition with_edges (g : Graph) (es : list Edge) : Graph :=
  {| nodes := nodes g; edges := es; next_id := next_id g; budget := budget g |}.

Definition create_row (n : Node) : Row := RList [node_value n; VInt (n_id n)].

(** [MATCH (source), (target) WHERE id(source) = ... AND id(target) = ...]:
    the pairs of node ids the match yields. *)
Definition node_pairs (g : Graph) (source target : Value) : list (Z * Z) :=
  s ← filter (fun n => has_id source n = true) (nodes g);
  d ← filter (fun n => has_id target n = true) (nodes g);
  [(n_id s, n_id d)].




(** What a statement does to the graph and returns. *)
Definition run (g : Graph) (cypher : Cypher) (params : Params)
  : Graph * (string + list Row) :=
  match cypher with
  | CreateNode l cs =>
      let n := {| n_id := next_id g; n_labels := l;
                  n_properties := apply_set params cs [] |} in
      (with_nodes g (nodes g ++ [n]) (next_id g + 1), inr [create_row n])
  | MergeNode l cs =>
      let id := default VNone (params !! "id") in
      let matches n := has_labels l n && has_property "id" id n in
      match filter (fun n => matches n = true) (nodes g) with
      | [] =>
          let n := {| n_id := next_id g; n_labels := l;
                      n_properties := apply_set params cs [("id", id)] |} in
          (with_nodes g (nodes g ++ [n]) (next_id g + 1), inr [create_row n])
      | _ =>
          let update n :=
            if matches n
            then {| n_id := n_id n; n_labels := n_labels n;
                    n_properties := apply_set params cs (n_properties n) |}
            else n in
          let ns := map update (nodes g) in
          (with_nodes g ns (next_id g),
           inr (map create_row (filter (fun n => matches n = true) ns)))
      end
  | MatchById l internal =>
      let id := default VNone (params !! "id") in
      (g, inr (map (fun n => RList [node_value n])
                 (filter (fun n => has_labels l n
                                   && (if internal then has_id id n
                                       else has_property "id" id n) = true)
                    (nodes g))))
  | MatchAll l =>
      (g, inr (map (fun n => RList [node_value n])
                 (filter (fun n => has_labels l n = true) (nodes g))))
  | RelationshipLoad p t tl =>
      match params !! "source_id" with
      | Some (VInt source) =>
          (g, inr (map (fun n => RList [node_value n]) (related_nodes g p t tl source)))
      | _ => (g, inr [])
      end
  | RelationshipCreate p t =>
      let source := default VNone (params !! "source_id") in
      let target := default VNone (params !! "target_id") in
      match p with
      | Outgoing =>
          (with_edges g
             (edges g ++ map (fun sd => {| e_source := fst sd; e_type := t;
                                            e_target := snd sd |})
                           (node_pairs g source target)),
           inr [])
      | Incoming =>
          (with_edges g
             (edges g ++ map (fun sd => {| e_source := snd sd; e_type := t;
                                            e_target := fst sd |})
                           (node_pairs g source target)),
           inr [])
      | Both => (g, inl "Only directed relationships are supported in CREATE")
      end
  | EagerLoading l internal fetched =>
      let id := default VNone (params !! "id") in
      (g, inr (map (eager_row g fetched)
                 (filter (fun n => has_labels l n
                                   && (if internal then has_id id n
                                       else has_property "id" id n) = true)
                    (nodes g))))
  | EagerLoadingAll l fetched =>
      (g, inr (map (eager_row g fetched)
                 (filter (fun n => has_labels l n = true) (nodes g))))
  end.

Definition spend (g : Graph) (b : option nat) : Graph :=
  {| nodes := nodes g; edges := edges g; next_id := next_id g; budget := b |}.

(** [graph.query] of the reference store: it raises once its budget is
    spent. *)
Definition answer (g : Graph) (cypher : Cypher) (params : Params)
  : Graph * (string + list Row) :=
  match budget g with
  | Some O => (g, inl "connection lost")
  | Some (S n) => run (spend g (Some n)) cypher params
  | None => run g cypher params
  end.

(** The targets of the edges of type [rel_type] that leave node [source]. *)
Definition edges_from (g : Graph) (source : Z) (rel_type : string) : list Z :=
  related_ids g Outgoing rel_type source.

#[local] Instance store : Store := {| G := Graph; graph_query := answer |}.

End RefStore.

(** ** The entities of the repository's tests *)

Module TestEntities.

Definition id_prop : PropertyMetadata :=
  {| p_python_name := "id"; p_graph_name := "id"; p_python_type := "Optional[int]";
     p_converter := None; p_required := false; p_is_id := true;
     p_id_generator := None; p_interned := false |}.

Definition plain_prop (name type : string) : PropertyMetadata :=
  {| p_python_name := name; p_graph_name := name; p_python_type := type;
     p_converter := None; p_required := false; p_is_id := false;
     p_id_generator := None; p_interned := false |}.

(** [friends: List["Person"] = relationship("KNOWS", target="Person", cascade=...)]:
    the forward reference leaves [target_class] unresolved. *)
Definition friends (cls : string) (cascade : bool) : RelationshipMetadata :=
  {| python_name := "friends"; relationship_type := "KNOWS"; direction := "OUTGOING";
     target_class := None; target_class_name := Some cls;
     is_collection := true; lazy := true; cascade := cascade |}.

(** [@node("Person") class Person] of [tests/test_cascade_save.py]. *)
Definition Person : EntityMetadata :=
  {| entity_class := "Person"; labels := ["Person"]; primary_label := "Person";
     properties := [id_prop; plain_prop "name" "str"; plain_prop "age" "int"];
     id_property := Some id_prop;
     relationships := [friends "Person" true] |}.

(** [@node("NonCascadePerson") class NonCascadePerson] *)
Definition NonCascadePerson : EntityMetadata :=
  {| entity_class := "NonCascadePerson"; labels := ["NonCascadePerson"];
     primary_label := "NonCascadePerson";
     properties := [id_prop; plain_prop "name" "str"];
     id_property := Some id_prop;
     relationships := [friends "NonCascadePerson" false] |}.

(** [@node("Company") class Company] *)
Definition Company : EntityMetadata :=
  {| entity_class := "Company"; labels := ["Company"]; primary_label := "Company";
     properties := [id_prop; plain_prop "name" "str"; plain_prop "industry" "str"];
     id_property := Some id_prop;
     relationships := [] |}.

(** [company: Optional[Company] = relationship("WORKS_FOR", target=Company, cascade=True)] *)
Definition company : RelationshipMetadata :=
  {| python_name := "company"; relationship_type := "WORKS_FOR"; direction := "OUTGOING";
     target_class := Some "Company"; target_class_name := Some "Company";
     is_collection := false; lazy := true; cascade := true |}.

(** [@node("Employee") class Employee] *)
Definition Employee : EntityMetadata :=
  {| entity_class := "Employee"; labels := ["Employee"]; primary_label := "Employee";
     properties := [id_prop; plain_prop "name" "str"; plain_prop "position" "str"];
     id_property := Some id_prop;
     relationships := [company] |}.

(** [members: List[Person] = relationship("HAS_MEMBER", target=Person, cascade=True)] *)
Definition members : RelationshipMetadata :=
  {| python_name := "members"; relationship_type := "HAS_MEMBER"; direction := "OUTGOING";
     target_class := Some "Person"; target_class_name := Some "Person";
     is_collection := true; lazy := true; cascade := true |}.

(** [@node("Team") class Team] of [tests/test_relationship_updates.py]. *)
Definition Team : EntityMetadata :=
  {| entity_class := "Team"; labels := ["Team"]; primary_label := "Team";
     properties := [id_prop; plain_prop "name" "str"];
     id_property := Some id_prop;
     relationships := [members] |}.

Definition metadata_of (cls : string) : option EntityMetadata :=
  if String.eqb cls "Person" then Some Person
  else if String.eqb cls "NonCascadePerson" then Some NonCascadePerson
  else if String.eqb cls "Company" then Some Company
  else if String.eqb cls "Employee" then Some Employee
  else if String.eqb cls "Team" then Some Team
  else None.

(** The registered converters leave a value of the declared type as it
    is; the examples hold only such values. *)
Definition convert (value : Value) (python_type : string) : option Value := Some value.

(** [Person(name=..., age=...)] with the given [friends] and no id. *)
Definition person (name : string) (age : Z) (friends : Value) : Obj :=
  Entity "Person" (<[ "friends" := friends ]>
                   (<[ "age" := VInt age ]> {[ "name" := VStr name ]})).

#[local] Instance schema : Schema :=
  {| get_entity_metadata := metadata_of;
     convert_to_graph := convert;
     convert_from_graph := convert |}.

End TestEntities.

(** ** Notions the properties are stated with *)

Section Notions.

Context {schema : Schema} {store : Store}.


(** [v] is an instance of an entity class whose id field, if the class has
    one, is still [None]. *)
Definition carries_no_id (h : list Obj) (v : Value) : Prop :=
  exists cls entity_metadata,
    class_of h v = Some cls /\
    get_entity_metadata cls = Some entity_metadata /\
    match id_property entity_metadata with
    | Some idp => getattr_in h v (p_python_name idp) = VNone
    | None => True
    end.


(** [entity_id is not None] for the id field of the metadata. *)
Definition has_id_value (metadata : EntityMetadata) (attrs : gmap string Value) : bool :=
  match id_property metadata with
  | Some idp => negb (is_None (default VNone (attrs !! p_python_name idp)))
  | None => false
  end.

(** The statement [Repository.save] issues for the node: the update
    statement for an entity with an id, the create statement otherwise. *)
Definition node_statement_of (metadata : EntityMetadata) (attrs : gmap string Value)
  : Exn + Query :=
  if has_id_value metadata attrs then map_to_cypher_merge_of metadata attrs
  else map_to_cypher_create_of metadata attrs.

(** The world after [graph.query(q)] was answered with state [g]. *)
Definition after_query (w : World) (g : G) (q : Query) (ok : bool) : World :=
  {| heap := heap w; graph := g; log := (log w ++ [(q, ok)])%list |}.


(** [v] is a lazy proxy that has never loaded. *)
Definition never_loaded_proxy (h : list Obj) (v : Value) : bool :=
  match v with
  | VRef a =>
      match h !! a with
      | Some (LazyList _ _ _ false _) | Some (LazySingle _ _ _ false _) => true
      | _ => false
      end
  | _ => false
  end.

(** How a call ended, without the value it returned. *)
Inductive Outcome : Type :=
| Returned
| Raised (e : Exn)
| Exhausted.

Definition outcome {A} (r : Res A) : Outcome :=
  match r with
  | Ret _ => Returned
  | Raise e => Raised e
  | OutOfFuel => Exhausted
  end.

(** A call satisfies a relation [Q] between the world before, the outcome
    and the world after. *)
Definition satisfies (Q : World -> Outcome -> World -> Prop) {A} (c : M A) : Prop :=
  forall w, Q w (outcome (fst (c w))) (snd (c w)).

(** An exception that does not come from the store. *)
Definition benign (e : Exn) : Prop := is_StoreError (root_cause e) = false.

Definition benign_result {A} (r : Exn + A) : Prop :=
  forall e, r = inl e -> benign e.

(** The statements a call added to the log. *)
Definition issued (w w' : World) (l : list (Query * bool)) : Prop :=
  log w' = (log w ++ l)%list.



(** The call issued no statement, left the store alone, and raised no
    store error. *)
Definition quiet (w : World) (o : Outcome) (w' : World) : Prop :=
  log w' = log w /\ graph w' = graph w /\ forall e, o = Raised e -> benign e.

(** The objects there before the call are still there, and every
    relationship manager among them has the tracker it had. *)
Definition trackers_kept (w : World) (o : Outcome) (w' : World) : Prop :=
  o <> Exhausted ->
  (length (heap w) <= length (heap w'))%nat /\
  forall m t, heap w !! m = Some (RelationshipManager t) ->
              heap w' !! m = Some (RelationshipManager t).




(** The objects of [h] are in [h'], unchanged. *)
Definition extends (h h' : list Obj) : Prop :=
  forall a, (a < length h)%nat -> h' !! a = h !! a.


End Notions.

(** ** Worlds of the tests *)

Module Examples.

Import TestEntities.
#[local] Existing Instance TestEntities.schema.
#[local] Existing Instance RefStore.store.

(** An entity of class [cls] with the given attributes. *)
Definition entity (cls : string) (fields : list (string * Value)) : Obj :=
  Entity cls (list_to_map fields).

(** A node of the store that was saved with its id as a property. *)
Definition stored (i : Z) (label name : string) : RefStore.Node :=
  {| RefStore.n_id := i; RefStore.n_labels := label;
     RefStore.n_properties := [("id", VInt i); ("name", VStr name)] |}.

Definition store_of (ns : list RefStore.Node) (es : list RefStore.Edge) (next : Z)
  : RefStore.Graph :=
  {| RefStore.nodes := ns; RefStore.edges := es; RefStore.next_id := next;
     RefStore.budget := None |}.

Definition world (objs : list Obj) (g : RefStore.Graph) : World :=
  {| heap := objs; graph := g; log := [] |}.





(** [test_update_collection_relationship_replace_all]: Alice, Bob, Charlie
    and Diana are saved already, as nodes 0 to 3; Alice knows Bob and
    Charlie. *)
Definition saved_person (i : Z) (name : string) (friends : Value) : Obj :=
  entity "Person" [("id", VInt i); ("name", VStr name); ("friends", friends)].

Definition four_people : RefStore.Graph :=
  store_of [stored 0 "Person" "Alice"; stored 1 "Person" "Bob";
            stored 2 "Person" "Charlie"; stored 3 "Person" "Diana"] [] 4.

Definition replace_all : World :=
  world [saved_person 0 "Alice" (VList [VRef 1%nat; VRef 2%nat]);
         saved_person 1 "Bob" VNone; saved_person 2 "Charlie" VNone;
         saved_person 3 "Diana" VNone;
         RelationshipManager ∅]
    four_people.

Definition person_repo (manager : nat) : Repository :=
  {| repo_entity_class := "Person"; repo_metadata := Person;
     relationship_manager := manager |}.

(** [alice = repo.save(alice); alice.friends = [diana]; alice = repo.save(alice)] *)
Definition save_then_replace : M nat :=
  bind (save 3 (person_repo 4) 0%nat) (fun _ =>
  bind (setattr 0%nat "friends" (VList [VRef 3%nat])) (fun _ =>
  save 3 (person_repo 4) 0%nat)).

(** [test_entity_tracker_prevents_loops]: a manager whose tracker already
    holds a key; Alice is unsaved and knows Bob, who is saved as node 0. *)
Definition guarded (tracker : gset (nat * Z)) : World :=
  world [entity "Person" [("name", VStr "Alice"); ("friends", VList [VRef 1%nat])];
         saved_person 0 "Bob" VNone;
         RelationshipManager tracker]
    (store_of [stored 0 "Person" "Bob"] [] 1).

(** Alice loaded from the store: her friends field holds a proxy. *)
Definition loaded_alice (friends : Value) (proxy_loaded : bool) : World :=
  world [saved_person 0 "Alice" friends;
         saved_person 1 "Bob" VNone;
         LazyList 0 (TestEntities.friends "Person" true) "Person" proxy_loaded
           (if proxy_loaded then [VRef 1%nat] else [])]
    (store_of [stored 0 "Person" "Alice"; stored 1 "Person" "Bob"] [] 2).



(** A collection field that holds a set. *)
Definition friends_as_set : World :=
  world [saved_person 0 "Alice" (VSet [VRef 1%nat]); saved_person 1 "Bob" VNone;
         RelationshipManager ∅]
    (store_of [stored 0 "Person" "Alice"; stored 1 "Person" "Bob"] [] 2).




End Examples.

(** ** More of the repository, the relationship manager and the proxies *)

Section Repository.

Context {schema : Schema} {store : Store}.

(** [Repository.save_all]: [[self.save(entity) for entity in entities]] *)
Definition save_all (fuel : nat) (self : Repository) (entities : list nat)
  : M (list nat) :=
  map_M (save fuel self) entities.

(** The loop of [Repository.find_all_by_id]. [if entity:] is the test
    for [None]: an instance of an entity class is true (the classes
    define neither [__bool__] nor [__len__]). *)
Fixpoint find_all_by_id_loop (self : Repository) (ids : list Value)
    (entities : list nat) : M (list nat) :=
  match ids with
  | [] => ret entities
  | entity_id :: rest =>
      bind (find_by_id self entity_id None) (fun entity =>
        find_all_by_id_loop self rest
          (match entity with
           | Some e => (entities ++ [e])%list
           | None => entities
           end))
  end.

(** [Repository.find_all_by_id] *)
Definition find_all_by_id (self : Repository) (ids : list Value) : M (list nat) :=
  find_all_by_id_loop self ids [].


(** The statement [find_by_id] issues. *)
Definition find_by_id_query (self : Repository) (entity_id : Value)
    (fetch : option (list string)) : Query :=
  match fetch_requested fetch with
  | Some hints => build_eager_loading_query (repo_metadata self) entity_id hints
  | None => build_match_by_id_query (repo_metadata self) entity_id
  end.


(** The id of an entity, when it has one: the value of the id field of its
    class, if that is not [None]. *)
Definition id_of (h : list Obj) (a : nat) : option Value :=
  match h !! a with
  | Some (Entity cls attrs) =>
      match get_entity_metadata cls ≫= id_property with
      | Some idp =>
          match default VNone (attrs !! p_python_name idp) with
          | VNone => None
          | v => Some v
          end
      | None => None
      end
  | _ => None
  end.

(** Every entity that had an id before the call has the same id after it,
    and every entity is still an entity of its class. *)
Definition ids_kept (w : World) (o : Outcome) (w' : World) : Prop :=
  (length (heap w) <= length (heap w'))%nat /\
  forall a cls attrs, heap w !! a = Some (Entity cls attrs) ->
    (exists attrs', heap w' !! a = Some (Entity cls attrs')) /\
    forall v, id_of (heap w) a = Some v -> id_of (heap w') a = Some v.

(** The repository holds the registered metadata of its class, as
    [Repository.__init__] leaves it. *)
Definition well_formed (self : Repository) : Prop :=
  get_entity_metadata (repo_entity_class self) = Some (repo_metadata self).



End Repository.

(** A store that answers every statement with the rows it holds (the
    [Mock(result_set=...)] of the tests). *)
Module StubStore.

#[local] Instance store : Store :=
  {| G := list Row; graph_query := fun g _ _ => (g, inr g) |}.

End StubStore.

(** ** Derived queries: query_parser.py and the derived-query builders of
    query_builder.py

    A method name such as [find_by_name_and_age_greater_than] is parsed
    into a [QuerySpec], and the builder turns the spec and the call's
    arguments into Cypher text and named parameters. Method names are
    ASCII here. *)

From stdpp Require pretty.

Module Derived.

Import Stdlib.Strings.Ascii.
Local Open Scope string_scope.

(** *** Python's string operations *)

(** [s[n:]] *)
Fixpoint string_drop (n : nat) (s : string) : string :=
  match n, s with
  | O, _ => s
  | S n', String _ s' => string_drop n' s'
  | S _, EmptyString => EmptyString
  end.

(** [s.startswith(p)] *)
Definition starts_with (p s : string) : bool := String.prefix p s.

(** [s.endswith(suffix)] *)
Definition ends_with (suffix s : string) : bool :=
  (String.length suffix <=? String.length s)%nat
  && String.eqb (string_drop (String.length s - String.length suffix) s) suffix.

(** [s[:-len(suffix)]], for a suffix that is not empty *)
Definition drop_suffix (suffix s : string) : string :=
  String.substring 0 (String.length s - String.length suffix) s.

(** [sub in s] *)
Fixpoint contains (sub s : string) : bool :=
  String.prefix sub s
  || match s with
     | String _ s' => contains sub s'
     | EmptyString => false
     end.

(** [s.split(sep)] for a separator that is not empty: the pieces between
    the occurrences of [sep], found from the left and not overlapping.
    [skip] counts the characters of a found separator still to pass, [cur]
    is the piece being read. *)
Fixpoint split_go (sep : string) (s : string) (skip : nat) (cur : string)
  : list string :=
  match s with
  | EmptyString => [cur]
  | String c s' =>
      match skip with
      | S k => split_go sep s' k cur
      | O =>
          if String.prefix sep s
          then cur :: split_go sep s' (String.length sep - 1) ""
          else split_go sep s' 0 (cur ++ String c "")
      end
  end.

Definition split (sep s : string) : list string := split_go sep s 0 "".

Definition is_digit (c : ascii) : bool :=
  (48 <=? nat_of_ascii c)%nat && (nat_of_ascii c <=? 57)%nat.

(** The longest run of digits at the head of [s], and what follows it. *)
Fixpoint take_digits (s : string) : string * string :=
  match s with
  | String c s' =>
      if is_digit c
      then let (digits, rest) := take_digits s' in (String c digits, rest)
      else ("", s)
  | EmptyString => ("", "")
  end.

(** [int(digits)] *)
Fixpoint int_of_digits (digits : string) (acc : Z) : Z :=
  match digits with
  | String c rest => int_of_digits rest (10 * acc + (Z.of_nat (nat_of_ascii c) - 48))
  | EmptyString => acc
  end.

Definition upper_ascii (c : ascii) : ascii :=
  let n := nat_of_ascii c in
  if (97 <=? n)%nat && (n <=? 122)%nat then ascii_of_nat (n - 32) else c.

(** [s.upper()] *)
Fixpoint upper (s : string) : string :=
  match s with
  | String c s' => String (upper_ascii c) (upper s')
  | EmptyString => EmptyString
  end.

(** *** query_parser.py *)

Inductive Operation : Type := FIND | COUNT | EXISTS | DELETE.


Inductive Operator : Type :=
| EQUALS | NOT_EQUALS | GREATER_THAN | GREATER_THAN_EQUAL | LESS_THAN
| LESS_THAN_EQUAL | BETWEEN | IN | NOT_IN | IS_NULL | IS_NOT_NULL
| CONTAINING | STARTING_WITH | ENDING_WITH | LIKE.

Inductive LogicalOperator : Type := AND | OR.

Definition logical_value (op : LogicalOperator) : string :=
  match op with AND => "AND" | OR => "OR" end.

Record Condition : Type := {
  c_property_name : string;
  operator : Operator;
  param_count : nat
}.

Record OrderClause : Type := {
  o_property_name : string;
  o_direction : string
}.

Record QuerySpec : Type := {
  operation : Operation;
  conditions : list Condition;
  logical_operator : LogicalOperator;
  ordering : list OrderClause;
  limit : option Z
}.

(** [QueryParser.OPERATOR_PATTERNS], in the order of the class *)
Definition OPERATOR_PATTERNS : list (string * Operator) :=
  [("_greater_than_equal", GREATER_THAN_EQUAL);
   ("_greater_than", GREATER_THAN);
   ("_less_than_equal", LESS_THAN_EQUAL);
   ("_less_than", LESS_THAN);
   ("_is_not_null", IS_NOT_NULL);
   ("_is_null", IS_NULL);
   ("_not_in", NOT_IN);
   ("_starting_with", STARTING_WITH);
   ("_ending_with", ENDING_WITH);
   ("_containing", CONTAINING);
   ("_between", BETWEEN);
   ("_like", LIKE);
   ("_not", NOT_EQUALS);
   ("_in", IN)].


(** [re.match(r"top_(\d+)_", text)]: the digits of the group and the text
    after the match. *)
Definition match_top (text : string) : option (string * string) :=
  if starts_with "top_" text then
    let (digits, rest) := take_digits (string_drop 4 text) in
    match digits, rest with
    | String _ _, String "_" rest' => Some (digits, rest')
    | _, _ => None
    end
  else None.

(** [QueryParser._extract_limit] *)
Definition extract_limit (text : string) : option Z :=
  if starts_with "first_" text then Some 1%Z
  else
    match match_top text with
    | Some (digits, _) => Some (int_of_digits digits 0)
    | None => None
    end.


(** The parameters an operator takes, as [_parse_single_condition] counts
    them. *)
Definition param_count_of (op : Operator) : nat :=
  match op with
  | BETWEEN => 2
  | IS_NULL | IS_NOT_NULL => 0
  | _ => 1
  end.

(** The loop of [QueryParser._parse_single_condition] over the patterns. *)
Fixpoint match_operator (patterns : list (string * Operator)) (text : string)
  : option Condition :=
  match patterns with
  | [] => None
  | (suffix, op) :: rest =>
      if ends_with suffix text
      then Some {| c_property_name := drop_suffix suffix text; operator := op;
                   param_count := param_count_of op |}
      else match_operator rest text
  end.

(** [QueryParser._parse_single_condition] *)
Definition parse_single_condition (text : string) : Condition :=
  match match_operator OPERATOR_PATTERNS text with
  | Some condition => condition
  | None => {| c_property_name := text; operator := EQUALS; param_count := 1 |}
  end.

Definition non_empty (s : string) : bool :=
  match s with EmptyString => false | _ => true end.


(** The pattern [_(asc|desc)_?] at the head of [s]: the group, and the
    number of characters matched. *)
Definition match_direction (s : string) : option (string * nat) :=
  if String.prefix "_asc" s then Some ("asc", if String.prefix "_asc_" s then 5 else 4)%nat
  else if String.prefix "_desc" s
       then Some ("desc", if String.prefix "_desc_" s then 6 else 5)%nat
       else None.

(** [re.split(r"_(asc|desc)_?", text)]: the pieces between the matches,
    each followed by the group of the match. *)
Fixpoint re_split_go (s : string) (skip : nat) (cur : string) : list string :=
  match s with
  | EmptyString => [cur]
  | String c s' =>
      match skip with
      | S k => re_split_go s' k cur
      | O =>
          match match_direction s with
          | Some (group, n) => cur :: group :: re_split_go s' (n - 1) ""
          | None => re_split_go s' 0 (cur ++ String c "")
          end
      end
  end.

(** The loop of [QueryParser._parse_ordering] over the parts, two at a
    time; a last part without a direction after it is not read. *)
Fixpoint order_pairs (parts : list string) : list OrderClause :=
  match parts with
  | property_name :: direction :: rest =>
      (if non_empty property_name
       then [{| o_property_name := property_name; o_direction := upper direction |}]
       else []) ++ order_pairs rest
  | _ => []
  end.

(** [QueryParser._parse_ordering] *)
Definition parse_ordering (text : string) : list OrderClause :=
  if non_empty text then order_pairs (re_split_go text 0 "") else [].


(** *** query_builder.py: the fixed statements of the other repository
    methods, as text *)

Definition build_count_query_text (metadata : EntityMetadata) : string :=
  "MATCH (n:" ++ labels_str metadata ++ ") RETURN count(n) as count".

Definition build_delete_all_query_text (metadata : EntityMetadata) : string :=
  "MATCH (n:" ++ labels_str metadata ++ ") DELETE n".

(** *** query_builder.py: derived queries *)

(** [f"p{param_idx}"] *)
Definition param_name (param_idx : nat) : string := "p" ++ pretty.pretty param_idx.

(** The branches of [_build_condition_clause] that take one parameter. *)
Definition one_parameter (clause : string -> string) (param_values : list Value)
    (param_idx : nat) : Exn + (string * Params * nat) :=
  match param_values !! param_idx with
  | Some value =>
      inr (clause (param_name param_idx), {[ param_name param_idx := value ]},
           (param_idx + 1)%nat)
  | None => inl IndexError
  end.

(** [QueryBuilder._build_condition_clause]: the clause, its parameters and
    the next parameter index; the [else] branch of the source is for no
    operator of the enumeration. *)
Definition build_condition_clause (condition : Condition) (param_values : list Value)
    (param_idx : nat) : Exn + (string * Params * nat) :=
  let prop := "n." ++ c_property_name condition in
  match operator condition with
  | EQUALS => one_parameter (fun p => prop ++ " = $" ++ p) param_values param_idx
  | NOT_EQUALS => one_parameter (fun p => prop ++ " <> $" ++ p) param_values param_idx
  | GREATER_THAN => one_parameter (fun p => prop ++ " > $" ++ p) param_values param_idx
  | GREATER_THAN_EQUAL =>
      one_parameter (fun p => prop ++ " >= $" ++ p) param_values param_idx
  | LESS_THAN => one_parameter (fun p => prop ++ " < $" ++ p) param_values param_idx
  | LESS_THAN_EQUAL =>
      one_parameter (fun p => prop ++ " <= $" ++ p) param_values param_idx
  | BETWEEN =>
      match param_values !! param_idx, param_values !! (param_idx + 1)%nat with
      | Some value1, Some value2 =>
          inr (prop ++ " >= $" ++ param_name param_idx ++ " AND " ++ prop ++ " <= $"
                 ++ param_name (param_idx + 1),
               <[ param_name (param_idx + 1) := value2 ]>
                 {[ param_name param_idx := value1 ]},
               (param_idx + 2)%nat)
      | _, _ => inl IndexError
      end
  | IN => one_parameter (fun p => prop ++ " IN $" ++ p) param_values param_idx
  | NOT_IN =>
      one_parameter (fun p => "NOT " ++ prop ++ " IN $" ++ p) param_values param_idx
  | IS_NULL => inr (prop ++ " IS NULL", ∅, param_idx)
  | IS_NOT_NULL => inr (prop ++ " IS NOT NULL", ∅, param_idx)
  | CONTAINING =>
      one_parameter (fun p => prop ++ " CONTAINS $" ++ p) param_values param_idx
  | STARTING_WITH =>
      one_parameter (fun p => prop ++ " STARTS WITH $" ++ p) param_values param_idx
  | ENDING_WITH =>
      one_parameter (fun p => prop ++ " ENDS WITH $" ++ p) param_values param_idx
  | LIKE => one_parameter (fun p => prop ++ " =~ $" ++ p) param_values param_idx
  end.

(** The loop of [build_where_clause]: [clauses.append(clause)] and
    [params.update(condition_params)]. *)
Fixpoint where_loop (conditions : list Condition) (param_values : list Value)
    (param_idx : nat) (clauses : list string) (params : Params)
  : Exn + (list string * Params) :=
  match conditions with
  | [] => inr (clauses, params)
  | condition :: rest =>
      match build_condition_clause condition param_values param_idx with
      | inl e => inl e
      | inr (clause, condition_params, next_idx) =>
          where_loop rest param_values next_idx (clauses ++ [clause])
            (condition_params ∪ params)
      end
  end.

(** The parameters [where_loop] reads for [conditions]: what the branches
    of [build_condition_clause] add to the parameter index. *)
Definition needed (conditions : list Condition) : nat :=
  foldr (fun c total => (param_count_of (operator c) + total)%nat) 0%nat conditions.

(** [QueryBuilder.build_where_clause] *)
Definition build_where_clause (conditions : list Condition)
    (logical_op : LogicalOperator) (param_values : list Value)
  : Exn + (string * Params) :=
  match conditions with
  | [] => inr ("", ∅)
  | _ =>
      match where_loop conditions param_values 0 [] ∅ with
      | inl e => inl e
      | inr (clauses, params) =>
          inr (String.concat (" " ++ logical_value logical_op ++ " ") clauses, params)
      end
  end.

(** [QueryBuilder.build_order_by_clause] *)
Definition build_order_by_clause (ordering : list OrderClause) : string :=
  match ordering with
  | [] => ""
  | _ =>
      "ORDER BY "
      ++ String.concat ", "
           (map (fun order => "n." ++ o_property_name order ++ " " ++ o_direction order)
              ordering)
  end.

(** [f" LIMIT {spec.limit}" if spec.limit else ""] *)
Definition limit_clause (limit : option Z) : string :=
  match limit with
  | Some n => if (n =? 0)%Z then "" else " LIMIT " ++ pretty.pretty n
  | None => ""
  end.

(** [cypher += f" WHERE {where_clause}"] under [if where_clause:] *)
Definition with_where (cypher where_clause : string) : string :=
  if non_empty where_clause then cypher ++ " WHERE " ++ where_clause else cypher.

(** [QueryBuilder.build_derived_query] *)
Definition build_derived_query (metadata : EntityMetadata) (spec : QuerySpec)
    (param_values : list Value) : Exn + (string * Params) :=
  match build_where_clause (conditions spec) (logical_operator spec) param_values with
  | inl e => inl e
  | inr (where_clause, params) =>
      let order_by_clause := build_order_by_clause (ordering spec) in
      let matched := with_where ("MATCH (n:" ++ labels_str metadata ++ ")") where_clause in
      inr (match operation spec with
           | FIND =>
               let cypher := matched ++ " RETURN n" in
               let cypher :=
                 if non_empty order_by_clause then cypher ++ " " ++ order_by_clause
                 else cypher in
               cypher ++ limit_clause (limit spec)
           | COUNT => matched ++ " RETURN count(n) as count"
           | EXISTS => matched ++ " RETURN count(n) > 0 as exists"
           | DELETE => matched ++ " DELETE n"
           end,
           params)
  end.

(** *** repository.py: the derived query method, up to the statement *)





End Derived.

(** ** More worlds *)

Module MoreExamples.

Import TestEntities.
#[local] Existing Instance TestEntities.schema.

Definition carol_attrs : gmap string Value :=
  list_to_map [("name", VStr "Carol"); ("age", VInt 41)].

(** Carol, unsaved, over a store that answers with [rows]. *)
Definition answered_with (rows : list Row) : World :=
  {| heap := [Entity "Person" carol_attrs; RelationshipManager ∅];
     graph := (rows : @G StubStore.store); log := [] |}.

End MoreExamples.

(** * Properties *)

(** ** Serialising an entity *)

Section Serialise.

Context {schema : Schema}.






End Serialise.

(** ** Running the monad *)

Section Running.

Context {store : Store}.

Lemma bind_ret {A B} (c : M A) (k : A -> M B) w a w' :
  c w = (Ret a, w') -> bind c k w = k a w'.
Proof. intros H. unfold bind. now rewrite H. Qed.

Lemma bind_raise {A B} (c : M A) (k : A -> M B) w e w' :
  c w = (Raise e, w') -> bind c k w = (Raise e, w').
Proof. intros H. unfold bind. now rewrite H. Qed.

Lemma try_except_raise_ret {A} (c : M A) h w a w' :
  c w = (Ret a, w') -> try_except_raise c h w = (Ret a, w').
Proof. intros H. unfold try_except_raise. now rewrite H. Qed.

Lemma try_except_raise_raise {A} (c : M A) h w e w' :
  c w = (Raise e, w') -> try_except_raise c h w = (Raise (h e), w').
Proof. intros H. unfold try_except_raise. now rewrite H. Qed.

(** A loop whose every round leaves the world alone leaves it alone. *)
Lemma for_each_skip {A} (l : list A) (body : A -> M unit) w :
  (forall x, x ∈ l -> body x w = (Ret tt, w)) ->
  for_each l body w = (Ret tt, w).
Proof.
  induction l as [|x rest IH]; intros Hbody; simpl.
  - reflexivity.
  - rewrite (bind_ret _ _ w tt w) by (apply Hbody; apply list_elem_of_here).
    apply IH. intros y Hy. apply Hbody. now apply list_elem_of_further.
Qed.

(** Changing the tracker of a manager changes no entity and no proxy. *)
Lemma lookup_set_tracker_in h m t a :
  a <> m -> set_tracker_in h m t !! a = h !! a.
Proof.
  intros Hne. unfold set_tracker_in.
  destruct (h !! m) as [[]|]; try reflexivity.
  now rewrite list_lookup_insert_ne by congruence.
Qed.

Lemma attrs_of_set_tracker_in h m t a :
  attrs_of (set_tracker_in h m t) a = attrs_of h a.
Proof.
  unfold attrs_of. destruct (decide (a = m)) as [->|Hne].
  - unfold set_tracker_in. destruct (h !! m) as [[]|] eqn:Hm; rewrite ?Hm; try reflexivity.
    rewrite list_lookup_insert_eq; [reflexivity|]. now apply lookup_lt_Some in Hm.
  - now rewrite lookup_set_tracker_in.
Qed.

Lemma getattr_in_set_tracker_in h m t v name :
  getattr_in (set_tracker_in h m t) v name = getattr_in h v name.
Proof. destruct v; simpl; try reflexivity. now rewrite attrs_of_set_tracker_in. Qed.

Lemma is_lazy_proxy_set_tracker_in h m t v :
  is_lazy_proxy (set_tracker_in h m t) v = is_lazy_proxy h v.
Proof.
  destruct v as [| | | |a| | | |]; simpl; try reflexivity.
  destruct (decide (a = m)) as [->|Hne].
  - unfold set_tracker_in. destruct (h !! m) as [[]|] eqn:Hm; rewrite ?Hm; try reflexivity.
    rewrite list_lookup_insert_eq; [reflexivity|]. now apply lookup_lt_Some in Hm.
  - now rewrite lookup_set_tracker_in.
Qed.


Lemma tracker_of_set_tracker_in h m t :
  is_Some (h !! m) -> (exists t0, h !! m = Some (RelationshipManager t0)) ->
  tracker_of (set_tracker_in h m t) m = t.
Proof.
  intros _ [t0 Hm]. unfold tracker_of, set_tracker_in. rewrite Hm.
  rewrite list_lookup_insert_eq; [reflexivity|]. now apply lookup_lt_Some in Hm.
Qed.

(** Adding a key that is not there and discarding it again restores the
    heap. *)
Lemma set_tracker_in_restore h m (key : nat * Z) :
  key ∉ tracker_of h m ->
  set_tracker_in (set_tracker_in h m ({[ key ]} ∪ tracker_of h m)) m
    (tracker_of (set_tracker_in h m ({[ key ]} ∪ tracker_of h m)) m ∖ {[ key ]}) = h.
Proof.
  intros Hkey. unfold tracker_of, set_tracker_in in *.
  destruct (h !! m) as [o|] eqn:Hm; [|now rewrite Hm].
  destruct o as [| | |t0]; rewrite ?Hm; try reflexivity.
  assert (Hlt : (m < length h)%nat) by now apply lookup_lt_Some in Hm.
  rewrite list_lookup_insert_eq by assumption.
  rewrite list_insert_insert_eq.
  replace (({[key]} ∪ t0) ∖ {[key]}) with t0 by set_solver.
  now apply list_insert_id.
Qed.

End Running.

(** ** One relationship field *)

Section Fields.

Context {schema : Schema} {store : Store}.
Variable save_rec : Repository -> nat -> M nat.

Lemma save_relationship_field_unfold source_entity source_id is_update rel_meta w :
  save_relationship_field save_rec source_entity source_id is_update rel_meta w =
  let rel_value := getattr_in (heap w) (VRef source_entity) (python_name rel_meta) in
  if is_None rel_value then (Ret tt, w)
  else if is_lazy_proxy (heap w) rel_value then (Ret tt, w)
  else
    bind (if is_update then delete_relationship_edges source_id rel_meta else ret tt)
      (fun _ =>
         if is_collection rel_meta then
           if negb (isinstance_list_tuple rel_value) then ret tt
           else for_each (elements_of rel_value)
                  (link_related_entity save_rec source_id rel_meta)
         else link_related_entity save_rec source_id rel_meta rel_value) w.
Proof.
  unfold save_relationship_field, getattr, get_world, bind at 1. cbn zeta.
  destruct (is_None _); [reflexivity|].
  unfold bind at 1. now destruct (is_lazy_proxy _ _).
Qed.

Lemma save_relationships_unfold manager source_entity source_id metadata is_update w :
  save_relationships save_rec manager source_entity source_id metadata is_update w =
  if decide ((source_entity, source_id) ∈ tracker_of (heap w) manager)
  then (Ret tt, w)
  else bind (tracker_add manager (source_entity, source_id))
         (fun _ => try_finally
                     (for_each (relationships metadata)
                        (save_relationship_field save_rec source_entity source_id
                           is_update))
                     (tracker_discard manager (source_entity, source_id))) w.
Proof.
  unfold save_relationships. unfold bind at 1, get_world.
  now destruct (decide _).
Qed.

(** C10. A collection relationship whose field holds neither a list nor a
    tuple is passed over by a non-update [save_relationships]: the round of
    the loop for that field returns normally and leaves the world, and with
    it the store and the log of statements, as it was; and so does the whole
    call when every declared relationship is such a field. *)
Theorem collection_value_not_list_ignored
    (manager source_entity : nat) (source_id : Z) (metadata : EntityMetadata)
    (w : World) :
  (forall rel_meta,
      is_collection rel_meta = true ->
      isinstance_list_tuple
        (getattr_in (heap w) (VRef source_entity) (python_name rel_meta)) = false ->
      save_relationship_field save_rec source_entity source_id false rel_meta w
      = (Ret tt, w)) /\
  ((forall rel_meta, rel_meta ∈ relationships metadata ->
      is_collection rel_meta = true /\
      isinstance_list_tuple
        (getattr_in (heap w) (VRef source_entity) (python_name rel_meta)) = false) ->
   save_relationships save_rec manager source_entity source_id metadata false w
   = (Ret tt, w)).
Proof.
  assert (Hfield : forall w' rel_meta,
      is_collection rel_meta = true ->
      isinstance_list_tuple
        (getattr_in (heap w') (VRef source_entity) (python_name rel_meta)) = false ->
      save_relationship_field save_rec source_entity source_id false rel_meta w'
      = (Ret tt, w')).
  { intros w' rel_meta Hcoll Hnot. rewrite save_relationship_field_unfold. cbn zeta.
    destruct (is_None _); [reflexivity|].
    destruct (is_lazy_proxy _ _); [reflexivity|].
    unfold bind, ret. now rewrite Hcoll, Hnot. }
  split; [apply Hfield|].
  intros Hall. unfold save_relationships, get_world, bind at 1.
  destruct (decide _) as [Hin|Hnotin]; [reflexivity|].
  unfold bind, tracker_add, try_finally.
  rewrite for_each_skip.
  - unfold tracker_discard. cbn [heap graph log].
    rewrite set_tracker_in_restore by assumption. now destruct w.
  - intros rel_meta Hrel. destruct (Hall _ Hrel) as [Hcoll Hnot].
    apply Hfield; [assumption|]. cbn [heap].
    now rewrite getattr_in_set_tracker_in.
Qed.

(** C4, as the code has it. A relationship field that holds [None] or a
    lazy proxy, whether the proxy has loaded or not, is passed over by
    [save_relationships], on a first save and on an update alike: the round
    of the loop returns normally and leaves the world as it was. *)
Theorem proxy_field_skipped
    (source_entity : nat) (source_id : Z) (is_update : bool)
    (rel_meta : RelationshipMetadata) (w : World) :
  is_None (getattr_in (heap w) (VRef source_entity) (python_name rel_meta)) = true \/
  is_lazy_proxy (heap w)
    (getattr_in (heap w) (VRef source_entity) (python_name rel_meta)) = true ->
  save_relationship_field save_rec source_entity source_id is_update rel_meta w
  = (Ret tt, w).
Proof.
  intros Hskip. rewrite save_relationship_field_unfold. cbn zeta.
  destruct (is_None _); [reflexivity|].
  destruct Hskip as [Hnone|Hproxy]; [discriminate|].
  now rewrite Hproxy.
Qed.

End Fields.

(** ** Saving an entity *)

Section Saving.

Context {schema : Schema} {store : Store}.

Lemma query_answered (q : Query) (w : World) g rs :
  graph_query (graph w) (fst q) (snd q) = (g, inr rs) ->
  query q w = (Ret rs, after_query w g q true).
Proof. intros H. unfold query. now rewrite H. Qed.

Lemma query_failed (q : Query) (w : World) g msg :
  graph_query (graph w) (fst q) (snd q) = (g, inl msg) ->
  query q w = (Raise (StoreError msg), after_query w g q false).
Proof. intros H. unfold query. now rewrite H. Qed.

Lemma lookup_setattr_in_ne h a name value b :
  b <> a -> setattr_in h a name value !! b = h !! b.
Proof.
  intros Hne. unfold setattr_in. destruct (h !! a) as [[]|]; try reflexivity.
  now rewrite list_lookup_insert_ne by congruence.
Qed.

Lemma attrs_of_setattr_in h a cls attrs name value :
  h !! a = Some (Entity cls attrs) ->
  attrs_of (setattr_in h a name value) a = <[ name := value ]> attrs.
Proof.
  intros Ha. unfold attrs_of, setattr_in. rewrite Ha.
  rewrite list_lookup_insert_eq; [reflexivity|]. now apply lookup_lt_Some in Ha.
Qed.


Lemma is_lazy_proxy_setattr_in h a name value v :
  is_lazy_proxy (setattr_in h a name value) v = is_lazy_proxy h v.
Proof.
  destruct v as [| | | |b| | | |]; simpl; try reflexivity.
  destruct (decide (b = a)) as [->|Hne].
  - unfold setattr_in. destruct (h !! a) as [[]|] eqn:Ha; rewrite ?Ha; try reflexivity.
    rewrite list_lookup_insert_eq; [reflexivity|]. now apply lookup_lt_Some in Ha.
  - now rewrite lookup_setattr_in_ne.
Qed.



(** An entity that carries no id stays so when another object changes. *)
Lemma carries_no_id_frame h h' b :
  h' !! b = h !! b -> carries_no_id h (VRef b) -> carries_no_id h' (VRef b).
Proof.
  intros Hb (cls & em & Hcls & Hreg & Hid).
  exists cls, em. unfold class_of, getattr_in, attrs_of in *. rewrite Hb.
  auto.
Qed.

Section Callback.

Variable save_rec : Repository -> nat -> M nat.





End Callback.



(** The statement [Repository.save] builds for an entity of its class. *)
Lemma save_statement_run (metadata : EntityMetadata) cls a attrs (w : World) :
  heap w !! a = Some (Entity cls attrs) ->
  get_entity_metadata cls = Some metadata ->
  (if has_id_value metadata attrs then map_to_cypher_merge a else map_to_cypher_create a) w
  = (match node_statement_of metadata attrs with
     | inl e => Raise e
     | inr q => Ret q
     end, w).
Proof.
  intros Ha Hreg. unfold node_statement_of.
  destruct (has_id_value metadata attrs);
    unfold map_to_cypher_merge, map_to_cypher_create, bind, get_world,
      mapper_get_entity_metadata, class_of, attrs_of;
    rewrite Ha; cbn [mbind option_bind]; rewrite Hreg; unfold lift_exn, ret, raise.
  - now destruct (map_to_cypher_merge_of metadata attrs).
  - now destruct (map_to_cypher_create_of metadata attrs).
Qed.


End Saving.

(** ** Invariants of the engine

    A relation between the world before a call, its outcome and the world
    after that is kept by sequencing, by the handlers and by the primitive
    steps is kept by hydration, by [save] for every fuel, and by the
    finders. *)

Section Benign.

Context {schema : Schema} {store : Store}.

Lemma benign_mapper_get_entity_metadata cls :
  benign_result (mapper_get_entity_metadata cls).
Proof.
  intros e. unfold mapper_get_entity_metadata.
  destruct (cls ≫= get_entity_metadata); [discriminate|]. now intros [= <-].
Qed.

Lemma benign_map_properties metadata attrs todo : forall props,
  benign_result (map_properties metadata attrs todo props).
Proof.
  induction todo as [|prop rest IH]; intros props e; simpl.
  - discriminate.
  - destruct (map_property metadata attrs prop props) as [e'|props'] eqn:Hone.
    + intros [= <-]. unfold map_property in Hone.
      repeat match type of Hone with
             | (if ?b then _ else _) = _ => destruct b; try discriminate
             | match ?x with _ => _ end = _ => destruct x; try discriminate
             end.
      now injection Hone as <-.
    + apply IH.
Qed.

Lemma benign_map_to_cypher_create_of metadata attrs :
  benign_result (map_to_cypher_create_of metadata attrs).
Proof.
  intros e. unfold map_to_cypher_create_of, map_to_properties.
  destruct (map_properties _ _ _ _) as [e'|props] eqn:Hmap.
  - intros [= <-]. eapply benign_map_properties; eauto.
  - destruct (set_clauses_of _ _ _ _). discriminate.
Qed.

Lemma benign_map_to_cypher_merge_of metadata attrs :
  benign_result (map_to_cypher_merge_of metadata attrs).
Proof.
  intros e. unfold map_to_cypher_merge_of, map_to_properties.
  destruct (id_property metadata); [|now intros [= <-]].
  destruct (is_None _); [now intros [= <-]|].
  destruct (map_properties _ _ _ _) as [e'|props] eqn:Hmap.
  - intros [= <-]. eapply benign_map_properties; eauto.
  - destruct (set_clauses_of _ _ _ _). discriminate.
Qed.

Lemma benign_node_kwargs node todo : forall kwargs,
  benign_result (node_kwargs node todo kwargs).
Proof.
  induction todo as [|prop rest IH]; intros kwargs e; simpl.
  - discriminate.
  - destruct (assoc_get _ _).
    + destruct (python_value_of _ _); [apply IH|now intros [= <-]].
    + destruct (node_internal_id node); [destruct (_ && _)|]; apply IH.
Qed.

Lemma benign_record_node record var_name : benign_result (record_node record var_name).
Proof.
  intros e. destruct record as [[|? ?]|d]; simpl; try discriminate.
  - now intros [= <-].
  - destruct (assoc_get _ _); [discriminate|now intros [= <-]].
Qed.



Lemma benign_record_node_id record : benign_result (record_node_id record).
Proof.
  intros e. destruct record as [[|? [|[] ?]]|d]; simpl; try discriminate;
    now intros [= <-].
Qed.

Lemma benign_build_relationship_create_query rel_meta source_id target_id :
  benign_result (build_relationship_create_query rel_meta source_id target_id).
Proof.
  intros e. unfold build_relationship_create_query.
  destruct (pattern_of_direction _); [discriminate|now intros [= <-]].
Qed.

Lemma benign_build_relationship_load_query rel_meta source_id target :
  benign_result (build_relationship_load_query rel_meta source_id target).
Proof.
  intros e. unfold build_relationship_load_query.
  destruct (get_entity_metadata target); [|now intros [= <-]].
  destruct (pattern_of_direction _); [discriminate|now intros [= <-]].
Qed.

End Benign.

Section Invariants.

Context {schema : Schema} {store : Store}.

Variable Q : World -> Outcome -> World -> Prop.

Hypothesis Q_refl : forall w, Q w Returned w.
Hypothesis Q_seq : forall w w1 w2 o, Q w Returned w1 -> Q w1 o w2 -> Q w o w2.
Hypothesis Q_raise : forall w e, benign e -> Q w (Raised e) w.
Hypothesis Q_exhausted : forall w, Q w Exhausted w.
Hypothesis Q_alloc : forall w o, Q w Returned (snd (alloc o w)).
Hypothesis Q_setattr : forall w a name value, Q w Returned (snd (setattr a name value w)).

Lemma satisfies_ret {A} (a : A) : satisfies Q (ret a).
Proof. intros w. apply Q_refl. Qed.

Lemma satisfies_raise {A} e : benign e -> satisfies Q (@raise _ A e).
Proof. intros He w. now apply Q_raise. Qed.

Lemma satisfies_lift_exn {A} (r : Exn + A) : benign_result r -> satisfies Q (lift_exn r).
Proof.
  intros Hr. destruct r as [e|a]; simpl.
  - apply satisfies_raise. now apply Hr.
  - apply satisfies_ret.
Qed.

Lemma satisfies_bind {A B} (c : M A) (k : A -> M B) :
  satisfies Q c -> (forall a, satisfies Q (k a)) -> satisfies Q (bind c k).
Proof.
  intros Hc Hk w. unfold bind. specialize (Hc w).
  destruct (c w) as [[a| e |] w1]; simpl in *; try assumption.
  eapply Q_seq; [exact Hc|apply Hk].
Qed.

Lemma satisfies_get_world : satisfies Q get_world.
Proof. intros w. apply Q_refl. Qed.

Lemma satisfies_getattr v name : satisfies Q (getattr v name).
Proof. intros w. apply Q_refl. Qed.

Lemma satisfies_alloc o : satisfies Q (alloc o).
Proof. intros w. apply Q_alloc. Qed.

Lemma satisfies_setattr a name value : satisfies Q (setattr a name value).
Proof. intros w. apply Q_setattr. Qed.

Lemma satisfies_for_each {A} (l : list A) (body : A -> M unit) :
  (forall x, satisfies Q (body x)) -> satisfies Q (for_each l body).
Proof.
  intros Hbody. induction l as [|x rest IH]; simpl.
  - apply satisfies_ret.
  - apply satisfies_bind; [apply Hbody|intros _; exact IH].
Qed.


(** A handler that keeps [Q] for the exceptions the body raises. *)
Lemma satisfies_try_except_raise {A} (c : M A) (h : Exn -> Exn) :
  satisfies Q c ->
  (forall w e w', fst (c w) = Raise e -> Q w (Raised e) w' -> Q w (Raised (h e)) w') ->
  satisfies Q (try_except_raise c h).
Proof.
  intros Hc Hh w. unfold try_except_raise. specialize (Hc w). specialize (Hh w).
  destruct (c w) as [[a| e |] w1]; simpl in *; try assumption.
  now apply Hh.
Qed.

(** *** Hydration *)

Lemma satisfies_create_lazy_proxy source_id rel_meta target :
  satisfies Q (create_lazy_proxy source_id rel_meta target).
Proof. unfold create_lazy_proxy. destruct (is_collection rel_meta); apply satisfies_alloc. Qed.

Lemma satisfies_initialize_lazy_relationships entity entity_id :
  satisfies Q (initialize_lazy_relationships entity entity_id).
Proof.
  unfold initialize_lazy_relationships.
  apply satisfies_bind; [apply satisfies_get_world|intros w0].
  apply satisfies_bind;
    [apply satisfies_lift_exn, benign_mapper_get_entity_metadata|intros metadata].
  apply satisfies_for_each. intros rel_meta.
  destruct (target_class rel_meta); [|apply satisfies_ret].
  apply satisfies_bind; [apply satisfies_create_lazy_proxy|intros proxy].
  apply satisfies_setattr.
Qed.

Hypothesis Q_wrap_mapping : forall w e w' message,
  Q w (Raised e) w' -> Q w (Raised (MappingException message)) w'.

Lemma satisfies_map_from_node node cls : satisfies Q (map_from_node node cls).
Proof.
  unfold map_from_node.
  apply satisfies_bind;
    [apply satisfies_lift_exn, benign_mapper_get_entity_metadata|intros metadata].
  apply satisfies_bind; [apply satisfies_lift_exn, benign_node_kwargs|intros kwargs].
  apply satisfies_try_except_raise.
  - apply satisfies_bind; [apply satisfies_alloc|intros entity].
    apply satisfies_bind; [|intros _; apply satisfies_ret].
    destruct (node_internal_id node);
      [apply satisfies_initialize_lazy_relationships|apply satisfies_ret].
  - intros w e w' _. apply Q_wrap_mapping.
Qed.

Lemma satisfies_map_from_record record cls var_name :
  satisfies Q (map_from_record record cls var_name).
Proof.
  unfold map_from_record.
  apply satisfies_bind; [apply satisfies_lift_exn, benign_record_node|intros node].
  apply satisfies_map_from_node.
Qed.


(** *** Saving *)

Hypothesis Q_query : forall q, satisfies Q (query q).
Hypothesis Q_wrap_query : forall w e w' message,
  Q w (Raised e) w' -> Q w (Raised (QueryException message e)) w'.
Hypothesis Q_guard : forall manager key (body : M unit) w,
  key ∉ tracker_of (heap w) manager ->
  satisfies Q body ->
  Q w (outcome (fst (bind (tracker_add manager key)
                       (fun _ => try_finally body (tracker_discard manager key)) w)))
      (snd (bind (tracker_add manager key)
              (fun _ => try_finally body (tracker_discard manager key)) w)).

Lemma satisfies_new_Repository cls : satisfies Q (new_Repository cls).
Proof.
  unfold new_Repository.
  apply satisfies_bind;
    [apply satisfies_lift_exn, benign_mapper_get_entity_metadata|intros metadata].
  apply satisfies_bind; [apply satisfies_alloc|intros manager; apply satisfies_ret].
Qed.

Lemma satisfies_create_relationship_edge source_id target_id rel_meta :
  satisfies Q (create_relationship_edge source_id target_id rel_meta).
Proof.
  unfold create_relationship_edge.
  apply satisfies_bind;
    [apply satisfies_lift_exn, benign_build_relationship_create_query|intros q].
  apply satisfies_bind; [apply Q_query|intros _; apply satisfies_ret].
Qed.

Lemma satisfies_delete_relationship_edges source_id rel_meta :
  satisfies Q (delete_relationship_edges source_id rel_meta).
Proof. apply satisfies_raise. reflexivity. Qed.

Lemma satisfies_map_to_cypher entity (has_id : bool) :
  satisfies Q (if has_id then map_to_cypher_merge entity else map_to_cypher_create entity).
Proof.
  destruct has_id; unfold map_to_cypher_merge, map_to_cypher_create;
    (apply satisfies_bind; [apply satisfies_get_world|intros w0]);
    (apply satisfies_bind;
       [apply satisfies_lift_exn, benign_mapper_get_entity_metadata|intros metadata]);
    apply satisfies_lift_exn.
  - apply benign_map_to_cypher_merge_of.
  - apply benign_map_to_cypher_create_of.
Qed.

Lemma satisfies_update_entity_id entity node_id :
  satisfies Q (update_entity_id entity node_id).
Proof.
  unfold update_entity_id.
  apply satisfies_bind; [apply satisfies_get_world|intros w0].
  apply satisfies_bind;
    [apply satisfies_lift_exn, benign_mapper_get_entity_metadata|intros metadata].
  destruct (id_property metadata); [apply satisfies_setattr|apply satisfies_ret].
Qed.

Section Callback.

Variable save_rec : Repository -> nat -> M nat.
Hypothesis save_rec_satisfies : forall self entity, satisfies Q (save_rec self entity).

Lemma satisfies_get_or_save_related_entity entity rel_meta :
  satisfies Q (get_or_save_related_entity save_rec entity rel_meta).
Proof.
  unfold get_or_save_related_entity.
  destruct (is_None entity); [apply satisfies_ret|].
  apply satisfies_bind; [apply satisfies_get_world|intros w0].
  apply satisfies_bind;
    [apply satisfies_lift_exn, benign_mapper_get_entity_metadata|intros metadata].
  destruct (id_property metadata) as [idp|]; [|apply satisfies_ret].
  destruct entity; try apply satisfies_ret.
  apply satisfies_bind; [apply satisfies_getattr|intros entity_id].
  destruct (negb _); [apply satisfies_ret|].
  destruct (cascade rel_meta); [|apply satisfies_ret].
  apply satisfies_bind; [apply satisfies_new_Repository|intros target_repo].
  apply satisfies_bind; [apply save_rec_satisfies|intros saved].
  apply satisfies_getattr.
Qed.

Lemma satisfies_link_related_entity source_id rel_meta related_entity :
  satisfies Q (link_related_entity save_rec source_id rel_meta related_entity).
Proof.
  unfold link_related_entity.
  apply satisfies_bind; [apply satisfies_get_or_save_related_entity|intros target_id].
  destruct (negb _); [apply satisfies_create_relationship_edge|apply satisfies_ret].
Qed.

Lemma satisfies_save_relationship_field source_entity source_id is_update rel_meta :
  satisfies Q (save_relationship_field save_rec source_entity source_id is_update rel_meta).
Proof.
  unfold save_relationship_field.
  apply satisfies_bind; [apply satisfies_getattr|intros rel_value].
  destruct (is_None rel_value); [apply satisfies_ret|].
  apply satisfies_bind; [apply satisfies_get_world|intros w0].
  destruct (is_lazy_proxy _ _); [apply satisfies_ret|].
  apply satisfies_bind.
  - destruct is_update; [apply satisfies_delete_relationship_edges|apply satisfies_ret].
  - intros _. destruct (is_collection rel_meta).
    + destruct (negb _); [apply satisfies_ret|].
      apply satisfies_for_each. intros x. apply satisfies_link_related_entity.
    + apply satisfies_link_related_entity.
Qed.

Lemma satisfies_save_relationships manager source_entity source_id metadata is_update :
  satisfies Q (save_relationships save_rec manager source_entity source_id metadata
                 is_update).
Proof.
  intros w. rewrite save_relationships_unfold.
  destruct (decide _) as [Hin|Hnotin]; [apply Q_refl|].
  apply Q_guard; [exact Hnotin|].
  apply satisfies_for_each. intros rel_meta. apply satisfies_save_relationship_field.
Qed.

Lemma satisfies_save_body self entity : satisfies Q (save_body save_rec self entity).
Proof.
  unfold save_body.
  apply satisfies_bind.
  { destruct (id_property (repo_metadata self)); [|apply satisfies_ret].
    apply satisfies_bind; [apply satisfies_getattr|intros v; apply satisfies_ret]. }
  intros has_id.
  apply satisfies_try_except_raise; [|intros w e w' _; apply Q_wrap_query].
  apply satisfies_bind; [apply satisfies_map_to_cypher|intros q].
  apply satisfies_bind; [apply Q_query|intros result_set].
  apply satisfies_bind; [|intros _; apply satisfies_ret].
  destruct result_set as [|record rows]; [apply satisfies_ret|].
  apply satisfies_bind;
    [apply satisfies_lift_exn, benign_record_node_id|intros node_id].
  apply satisfies_bind.
  { destruct (_ && _); [apply satisfies_update_entity_id|apply satisfies_ret]. }
  intros _. destruct (relationships (repo_metadata self));
    [apply satisfies_ret|apply satisfies_save_relationships].
Qed.

End Callback.

(** The invariant holds of [save] whatever the fuel. *)
Lemma satisfies_save fuel : forall self entity, satisfies Q (save fuel self entity).
Proof.
  induction fuel as [|fuel IH]; intros self entity.
  - intros w. apply Q_exhausted.
  - cbn [save]. now apply satisfies_save_body.
Qed.

End Invariants.

(** ** Loading: hydration issues no statement *)

Section Loading.

Context {schema : Schema} {store : Store}.

Lemma quiet_refl w : quiet w Returned w.
Proof. repeat split. discriminate. Qed.

Lemma quiet_seq w w1 w2 o : quiet w Returned w1 -> quiet w1 o w2 -> quiet w o w2.
Proof.
  intros (Hl1 & Hg1 & _) (Hl2 & Hg2 & He). repeat split; try congruence. exact He.
Qed.

Lemma quiet_raise w e : benign e -> quiet w (Raised e) w.
Proof. intros He. repeat split. now intros ? [= <-]. Qed.

Lemma quiet_alloc w o : quiet w Returned (snd (alloc o w)).
Proof. repeat split. discriminate. Qed.

Lemma quiet_setattr w a name value : quiet w Returned (snd (setattr a name value w)).
Proof. repeat split. discriminate. Qed.

Lemma quiet_wrap_mapping w e w' message :
  quiet w (Raised e) w' -> quiet w (Raised (MappingException message)) w'.
Proof. intros (Hl & Hg & _). repeat split; try assumption. now intros ? [= <-]. Qed.

Lemma quiet_map_from_record record cls var_name :
  satisfies quiet (map_from_record record cls var_name).
Proof.
  apply satisfies_map_from_record;
    [exact quiet_refl|exact quiet_seq|exact quiet_raise|exact quiet_alloc
    |exact quiet_setattr|exact quiet_wrap_mapping].
Qed.







(** *** Hydrating a row *)

Lemma extends_refl h : extends h h.
Proof. now intros a Ha. Qed.

Lemma extends_trans h1 h2 h3 :
  (length h1 <= length h2)%nat -> extends h1 h2 -> extends h2 h3 -> extends h1 h3.
Proof. intros Hlen H12 H23 a Ha. rewrite H23 by lia. now apply H12. Qed.




(** *** The collection proxy *)





Lemma bind_get_world {A} (k : World -> M A) w : bind get_world k w = k w w.
Proof. reflexivity. Qed.


Lemma quiet_bind {A B} (c : M A) (k : A -> M B) :
  satisfies quiet c -> (forall x, satisfies quiet (k x)) -> satisfies quiet (bind c k).
Proof. apply satisfies_bind. exact quiet_seq. Qed.

Lemma quiet_ret {A} (x : A) : satisfies quiet (ret x).
Proof. intros w. apply quiet_refl. Qed.







End Loading.

(** ** Store failures *)

Section Failures.

Context {schema : Schema} {store : Store}.















Lemma has_id_runs (metadata : EntityMetadata) (entity : nat) (w : World) :
  exists b,
    (match id_property metadata with
     | Some idp =>
         bind (getattr (VRef entity) (p_python_name idp))
           (fun entity_id => ret (negb (is_None entity_id)))
     | None => ret false
     end) w = (Ret b, w).
Proof. destruct (id_property metadata); eexists; reflexivity. Qed.



End Failures.

(** ** The cycle guard *)

Section Trackers.

Context {schema : Schema} {store : Store}.

Lemma length_set_tracker_in h m t : length (set_tracker_in h m t) = length h.
Proof.
  unfold set_tracker_in. destruct (h !! m) as [[]|]; try reflexivity.
  apply length_insert.
Qed.

Lemma length_setattr_in h a name value : length (setattr_in h a name value) = length h.
Proof.
  unfold setattr_in. destruct (h !! a) as [[]|]; try reflexivity.
  apply length_insert.
Qed.

Lemma trackers_kept_refl w : trackers_kept w Returned w.
Proof. intros _. split; [lia|auto]. Qed.

Lemma trackers_kept_seq w w1 w2 o :
  trackers_kept w Returned w1 -> trackers_kept w1 o w2 -> trackers_kept w o w2.
Proof.
  intros H1 H2 Ho. destruct (H1 ltac:(discriminate)) as [Hlen1 Hm1].
  destruct (H2 Ho) as [Hlen2 Hm2]. split; [lia|auto].
Qed.

Lemma trackers_kept_raise w e : benign e -> trackers_kept w (Raised e) w.
Proof. intros _ _. split; [lia|auto]. Qed.

Lemma trackers_kept_exhausted w : trackers_kept w Exhausted w.
Proof. intros H. now contradict H. Qed.

Lemma trackers_kept_exhausted_any w w' : trackers_kept w Exhausted w'.
Proof. intros H. now contradict H. Qed.

Lemma trackers_kept_alloc w o : trackers_kept w Returned (snd (alloc o w)).
Proof.
  intros _. cbn [alloc snd heap]. split; [rewrite length_app; lia|].
  intros m t Hm. rewrite lookup_app_l; [exact Hm|]. now apply lookup_lt_Some in Hm.
Qed.

Lemma trackers_kept_setattr w a name value :
  trackers_kept w Returned (snd (setattr a name value w)).
Proof.
  intros _. cbn [setattr snd heap]. split; [rewrite length_setattr_in; lia|].
  intros m t Hm. destruct (decide (m = a)) as [->|Hne].
  - unfold setattr_in. now rewrite Hm.
  - now rewrite lookup_setattr_in_ne.
Qed.

Lemma trackers_kept_query q : satisfies trackers_kept (query q).
Proof.
  intros w. unfold query.
  destruct (graph_query (graph w) (fst q) (snd q)) as [g [msg|rs]];
    intros _; cbn [snd heap]; split; auto.
Qed.

Lemma trackers_kept_wrap_query w e w' message :
  trackers_kept w (Raised e) w' ->
  trackers_kept w (Raised (QueryException message e)) w'.
Proof. intros H _. now apply H. Qed.

(** The frame of [save_relationships]: the key goes in, the body keeps the
    trackers, the key comes out. *)
Lemma trackers_kept_guard manager key (body : M unit) w :
  key ∉ tracker_of (heap w) manager ->
  satisfies trackers_kept body ->
  trackers_kept w
    (outcome (fst (bind (tracker_add manager key)
                     (fun _ => try_finally body (tracker_discard manager key)) w)))
    (snd (bind (tracker_add manager key)
            (fun _ => try_finally body (tracker_discard manager key)) w)).
Proof.
  intros Hkey Hbody. unfold bind, tracker_add, try_finally.
  set (w1 := {| heap := set_tracker_in (heap w) manager
                          ({[key]} ∪ tracker_of (heap w) manager);
                graph := graph w; log := log w |}).
  specialize (Hbody w1).
  assert (Hdone : forall o w2, o <> Exhausted -> trackers_kept w1 o w2 ->
                   trackers_kept w o (tracker_discard manager key w2)).
  { intros o w2 Ho H2 _. destruct (H2 Ho) as [Hlen Hm].
    unfold tracker_discard. cbn [heap]. split.
    - rewrite length_set_tracker_in. subst w1. cbn [heap] in Hlen.
      now rewrite length_set_tracker_in in Hlen.
    - intros m t Hmt. destruct (decide (m = manager)) as [->|Hne].
      + assert (H1 : heap w1 !! manager
                     = Some (RelationshipManager ({[key]} ∪ t))).
        { subst w1. cbn [heap]. unfold set_tracker_in, tracker_of. rewrite Hmt.
          apply list_lookup_insert_eq. now apply lookup_lt_Some in Hmt. }
        apply Hm in H1. unfold set_tracker_in, tracker_of. rewrite H1.
        rewrite list_lookup_insert_eq by now apply lookup_lt_Some in H1.
        unfold tracker_of in Hkey. rewrite Hmt in Hkey.
        f_equal. f_equal. set_solver.
      + rewrite lookup_set_tracker_in by assumption. apply Hm.
        subst w1. cbn [heap]. now rewrite lookup_set_tracker_in. }
  destruct (body w1) as [[[]|e|] w2]; cbn [fst snd outcome] in *.
  - now apply (Hdone Returned).
  - now apply (Hdone (Raised e)).
  - apply trackers_kept_exhausted_any.
Qed.

(** Whatever the fuel, [save] keeps the trackers of the managers there. *)
Lemma save_trackers_kept fuel self entity :
  satisfies trackers_kept (save fuel self entity).
Proof.
  apply satisfies_save.
  - exact trackers_kept_refl.
  - exact trackers_kept_seq.
  - exact trackers_kept_raise.
  - exact trackers_kept_exhausted.
  - exact trackers_kept_alloc.
  - exact trackers_kept_setattr.
  - exact trackers_kept_query.
  - exact trackers_kept_wrap_query.
  - exact trackers_kept_guard.
Qed.

Lemma save_relationships_trackers_kept fuel manager source_entity source_id metadata
    is_update :
  satisfies trackers_kept
    (save_relationships (save fuel) manager source_entity source_id metadata is_update).
Proof.
  apply satisfies_save_relationships.
  - exact trackers_kept_refl.
  - exact trackers_kept_seq.
  - exact trackers_kept_raise.
  - exact trackers_kept_alloc.
  - exact trackers_kept_query.
  - exact trackers_kept_guard.
  - intros self entity. apply save_trackers_kept.
Qed.

(** C2, as the code has it. The cycle guard is state of the relationship
    manager a repository constructs: [save_relationships] consults the
    tracker of its manager and returns at once, leaving the world as it
    was, when its key is there; a repository, the temporary one of a
    cascade included, is constructed with a manager of its own whose
    tracker is empty; and a save, or a [save_relationships] call, that
    returns or raises leaves every manager that was there with the tracker
    it had. *)
Theorem tracker_is_manager_state
    (fuel : nat) (self : Repository) (entity : nat)
    (manager source_entity : nat) (source_id : Z) (metadata : EntityMetadata)
    (is_update : bool) (cls : string) (w : World) :
  ((source_entity, source_id) ∈ tracker_of (heap w) manager ->
   save_relationships (save fuel) manager source_entity source_id metadata is_update w
   = (Ret tt, w)) /\
  (forall repo w',
      new_Repository cls w = (Ret repo, w') ->
      relationship_manager repo = length (heap w) /\
      heap w !! relationship_manager repo = None /\
      heap w' !! relationship_manager repo = Some (RelationshipManager ∅)) /\
  trackers_kept w (outcome (fst (save fuel self entity w)))
    (snd (save fuel self entity w)) /\
  trackers_kept w
    (outcome (fst (save_relationships (save fuel) manager source_entity source_id
                     metadata is_update w)))
    (snd (save_relationships (save fuel) manager source_entity source_id
            metadata is_update w)).
Proof.
  split; [|split; [|split]].
  - intros Hin. rewrite save_relationships_unfold.
    destruct (decide _) as [_|Hout]; [reflexivity|contradiction].
  - intros repo w'. unfold new_Repository, bind, lift_exn, alloc, ret, raise.
    destruct (mapper_get_entity_metadata (Some cls)) as [e|md]; [discriminate|].
    intros [= <- <-]. cbn [relationship_manager heap].
    split; [reflexivity|]. split.
    + apply lookup_ge_None. lia.
    + rewrite lookup_app_r by lia. now rewrite Nat.sub_diag.
  - apply save_trackers_kept.
  - apply save_relationships_trackers_kept.
Qed.

End Trackers.

(** ** Cascading saves over the reference store *)

Section Cycle.

Context {schema : Schema}.
#[local] Existing Instance RefStore.store.




Section Callback.

Variable save_rec : Repository -> nat -> M nat.







End Callback.


Lemma getattr_in_app h o v name :
  (forall a, v = VRef a -> (a < length h)%nat) ->
  getattr_in (h ++ [o]) v name = getattr_in h v name.
Proof.
  intros Hv. destruct v as [| | | |a| | | |]; try reflexivity.
  unfold getattr_in, attrs_of. now rewrite lookup_app_l by (now apply Hv).
Qed.

Lemma class_of_app h o a :
  (a < length h)%nat -> class_of (h ++ [o]) (VRef a) = class_of h (VRef a).
Proof. intros Ha. unfold class_of. now rewrite lookup_app_l. Qed.






End Cycle.

(** ** The properties on the worlds of the tests *)

#[local] Existing Instance TestEntities.schema.
#[local] Existing Instance RefStore.store.

(** C1, on the code. Alice, saved with friends Bob and Charlie, is given the
    one friend Diana and saved again through the same repository: both saves
    return, the second issues the update statement and one edge creation and
    nothing that deletes an edge, and afterwards three KNOWS edges leave
    Alice's node, to Bob, Charlie and Diana, where the claim has exactly
    one, to Diana. *)
Theorem resave_keeps_replaced_edges :
  fst (Examples.save_then_replace Examples.replace_all) = Ret 0%nat /\
  RefStore.edges_from (graph (snd (Examples.save_then_replace Examples.replace_all)))
    0 "KNOWS" = [1; 2; 3] /\
  map (fun entry => fst (fst entry))
    (log (snd (Examples.save_then_replace Examples.replace_all)))
  = [MergeNode "Person" [("name", false)];
     RelationshipCreate Outgoing "KNOWS";
     RelationshipCreate Outgoing "KNOWS";
     MergeNode "Person" [("name", false)];
     RelationshipCreate Outgoing "KNOWS"].
Proof. split; [|split]; vm_compute; reflexivity. Qed.

(** C2, against the claim. The same save of the same entity on two worlds
    that differ only in the tracker the repository's manager holds: with an
    empty tracker the edge to Bob is created, with the key of the save left
    in the tracker no edge is. The guard set is state of the manager, not a
    set made for the call. *)
Lemma guard_is_instance_state :
  fst (save 3 (Examples.person_repo 2) 0%nat (Examples.guarded ∅)) = Ret 0%nat /\
  RefStore.edges (graph (snd (save 3 (Examples.person_repo 2) 0%nat (Examples.guarded ∅))))
  = [{| RefStore.e_source := 1; RefStore.e_type := "KNOWS"; RefStore.e_target := 0 |}] /\
  fst (save 3 (Examples.person_repo 2) 0%nat (Examples.guarded {[ (0%nat, 1) ]}))
  = Ret 0%nat /\
  RefStore.edges
    (graph (snd (save 3 (Examples.person_repo 2) 0%nat
                   (Examples.guarded {[ (0%nat, 1) ]}))))
  = [].
Proof. split; [|split; [|split]]; vm_compute; reflexivity. Qed.

(** C4, against the claim. Alice's friends field holds a proxy that has
    loaded, with Bob in it: the round of the loop for the field returns and
    leaves the world as it was, no edge is written, while the list with the
    same item in the field has the edge to Bob written. *)
Lemma loaded_proxy_is_skipped :
  is_None (getattr_in (heap (Examples.loaded_alice (VRef 2%nat) true))
             (VRef 0%nat) "friends") = false /\
  never_loaded_proxy (heap (Examples.loaded_alice (VRef 2%nat) true))
    (getattr_in (heap (Examples.loaded_alice (VRef 2%nat) true)) (VRef 0%nat) "friends")
  = false /\
  save_relationship_field (save 3) 0%nat 0 false (TestEntities.friends "Person" true)
    (Examples.loaded_alice (VRef 2%nat) true)
  = (Ret tt, Examples.loaded_alice (VRef 2%nat) true) /\
  RefStore.edges
    (graph (snd (save_relationship_field (save 3) 0%nat 0 false
                   (TestEntities.friends "Person" true)
                   (Examples.loaded_alice (VList [VRef 1%nat]) true))))
  = [{| RefStore.e_source := 0; RefStore.e_type := "KNOWS"; RefStore.e_target := 1 |}].
Proof.
  split; [vm_compute; reflexivity|]. split; [vm_compute; reflexivity|].
  split; [reflexivity|vm_compute; reflexivity].
Qed.


(** *** The theorems at the worlds of the tests *)

(** The tracker of the manager holds the key of the call: the call returns
    at once; and a new repository has the next address as its manager, with
    an empty tracker. *)
Lemma guarded_save_relationships_returns :
  save_relationships (save 3) 2%nat 0%nat 1 TestEntities.Person false
    (Examples.guarded {[ (0%nat, 1) ]})
  = (Ret tt, Examples.guarded {[ (0%nat, 1) ]}) /\
  exists w',
    new_Repository "Person" (Examples.guarded {[ (0%nat, 1) ]})
    = (Ret (Examples.person_repo 3), w') /\
    heap w' !! 3%nat = Some (RelationshipManager ∅).
Proof.
  destruct (tracker_is_manager_state 3 (Examples.person_repo 2) 0%nat 2%nat 0%nat 1
              TestEntities.Person false "Person" (Examples.guarded {[ (0%nat, 1) ]}))
    as (Hguard & Hnew & _ & _).
  split.
  - apply Hguard. vm_compute. reflexivity.
  - eexists. split; [reflexivity|].
    eapply (Hnew (Examples.person_repo 3)). reflexivity.
Defined.


(** A proxy that has not loaded, on an update. *)
Lemma unloaded_proxy_skipped_on_update :
  save_relationship_field (save 3) 0%nat 0 true (TestEntities.friends "Person" true)
    (Examples.loaded_alice (VRef 2%nat) false)
  = (Ret tt, Examples.loaded_alice (VRef 2%nat) false).
Proof. apply proxy_field_skipped. right. vm_compute. reflexivity. Defined.





(** A set in the friends field. *)
Lemma set_valued_friends_ignored :
  save_relationship_field (save 3) 0%nat 0 false (TestEntities.friends "Person" true)
    Examples.friends_as_set
  = (Ret tt, Examples.friends_as_set) /\
  save_relationships (save 3) 2%nat 0%nat 0 TestEntities.Person false
    Examples.friends_as_set
  = (Ret tt, Examples.friends_as_set).
Proof.
  destruct (collection_value_not_list_ignored (save 3) 2%nat 0%nat 0 TestEntities.Person
              Examples.friends_as_set) as [Hfield Hall].
  split.
  - apply Hfield; vm_compute; reflexivity.
  - apply Hall. intros rel_meta Hrel.
    apply list_elem_of_singleton in Hrel. subst rel_meta.
    split; vm_compute; reflexivity.
Defined.

(** ** Further properties of the repository *)

Section MoreRepository.

Context {schema : Schema} {store : Store}.

(** A call that, when it returns, returns [x]. *)
Lemma returns_bind {A B} (c : M A) (k : A -> M B) (x : B) :
  (forall a w, match fst (k a w) with Ret r => r = x | _ => True end) ->
  forall w, match fst (bind c k w) with Ret r => r = x | _ => True end.
Proof.
  intros Hk w. unfold bind. destruct (c w) as [[a|e|] w']; cbn [fst]; auto. apply Hk.
Qed.

Lemma save_returns_entity fuel self entity w :
  match fst (save fuel self entity w) with
  | Ret r => r = entity
  | _ => True
  end.
Proof.
  destruct fuel as [|fuel]; [exact I|]. cbn [save]. unfold save_body.
  destruct (has_id_runs (repo_metadata self) entity w) as [has_id Hhas].
  rewrite (bind_ret _ _ _ _ _ Hhas). unfold try_except_raise.
  match goal with
  | |- context [let (_, _) := ?c w in _] =>
      assert (H : match fst (c w) with Ret r => r = entity | _ => True end);
      [|destruct (c w) as [[a|e|] w2]; cbn [fst] in *; auto]
  end.
  apply returns_bind. intros q w1. apply returns_bind. intros rs w2.
  apply returns_bind. intros _ w3. reflexivity.
Qed.

(** X1. Whenever [save] returns, it returns the instance it was given,
    and whenever [save_all] returns, it returns the instances it was
    given, in the order given; on no entities [save_all] returns the empty
    list and issues nothing. *)
Theorem save_all_returns_the_entities
    (fuel : nat) (self : Repository) (entity : nat) (entities : list nat) (w : World) :
  match fst (save fuel self entity w) with
  | Ret r => r = entity
  | _ => True
  end /\
  match fst (save_all fuel self entities w) with
  | Ret rs => rs = entities
  | _ => True
  end /\
  save_all fuel self [] w = (Ret [], w).
Proof.
  split; [apply save_returns_entity|]. split; [|reflexivity].
  unfold save_all. revert w. induction entities as [|e rest IH]; intros w; [reflexivity|].
  cbn [map_M]. unfold bind at 1.
  pose proof (save_returns_entity fuel self e w) as He.
  destruct (save fuel self e w) as [[r|x|] w1]; cbn [fst] in *; auto.
  subst r. unfold bind at 1. specialize (IH w1).
  destruct (map_M (save fuel self) rest w1) as [[rs|x|] w2]; cbn [fst] in *; auto.
  now subst rs.
Qed.

(** The id test at the head of [Repository.save], on an entity instance. *)
Lemma has_id_of_entity (metadata : EntityMetadata) (a : nat) cls attrs (w : World) :
  heap w !! a = Some (Entity cls attrs) ->
  (match id_property metadata with
   | Some idp =>
       bind (getattr (VRef a) (p_python_name idp))
         (fun entity_id => ret (negb (is_None entity_id)))
   | None => ret false
   end) w = (Ret (has_id_value metadata attrs), w).
Proof.
  intros Ha. unfold has_id_value. destruct (id_property metadata) as [idp|]; [|reflexivity].
  unfold bind, getattr, ret, getattr_in, attrs_of. now rewrite Ha.
Qed.

(** [Repository.save] from the point where the statement is built. *)
Lemma save_from_statement (fuel : nat) (self : Repository) (a : nat) attrs q (w : World) :
  get_entity_metadata (repo_entity_class self) = Some (repo_metadata self) ->
  heap w !! a = Some (Entity (repo_entity_class self) attrs) ->
  node_statement_of (repo_metadata self) attrs = inr q ->
  save (S fuel) self a w
  = try_except_raise
      (bind (query q) (fun result_set =>
       bind (match result_set with
             | record :: _ =>
                 bind (lift_exn (record_node_id record)) (fun node_id =>
                 bind (if negb (has_id_value (repo_metadata self) attrs)
                          && bool_decide (is_Some (id_property (repo_metadata self)))
                       then update_entity_id a node_id
                       else ret tt) (fun _ =>
                 match relationships (repo_metadata self) with
                 | _ :: _ =>
                     save_relationships (save fuel) (relationship_manager self) a node_id
                       (repo_metadata self) false
                 | [] => ret tt
                 end))
             | [] => ret tt
             end) (fun _ => ret a)))
      (QueryException "Failed to save entity") w.
Proof.
  intros Hreg Ha Hq. cbn [save]. unfold save_body.
  rewrite (bind_ret _ _ _ _ _ (has_id_of_entity (repo_metadata self) a _ attrs w Ha)).
  unfold try_except_raise.
  rewrite (bind_ret _ _ w q w); [reflexivity|].
  now rewrite (save_statement_run (repo_metadata self) _ _ _ _ Ha Hreg), Hq.
Qed.

(** X2. When the store answers the node statement with no row, [save]
    returns the entity and does nothing more: the statement is the only one
    issued, no id is assigned and no relationship is saved; the heap is as
    it was. *)
Theorem save_without_result_row
    (fuel : nat) (self : Repository) (a : nat) (attrs : gmap string Value)
    (q : Query) (g : G) (w : World) :
  get_entity_metadata (repo_entity_class self) = Some (repo_metadata self) ->
  heap w !! a = Some (Entity (repo_entity_class self) attrs) ->
  node_statement_of (repo_metadata self) attrs = inr q ->
  graph_query (graph w) (fst q) (snd q) = (g, inr []) ->
  save (S fuel) self a w = (Ret a, after_query w g q true).
Proof.
  intros Hreg Ha Hq Hans. rewrite (save_from_statement _ _ _ _ _ _ Hreg Ha Hq).
  apply try_except_raise_ret.
  rewrite (bind_ret _ _ _ _ _ (query_answered _ _ _ _ Hans)). reflexivity.
Qed.

(** X3. When the first row the store answers the node statement with has
    fewer than two columns, [save] raises a [QueryException] caused by the
    [IndexError] of [record[1]]; the statement was executed, nothing else
    is issued, and the heap is as it was: no id is assigned. *)
Theorem save_row_without_node_id
    (fuel : nat) (self : Repository) (a : nat) (attrs : gmap string Value)
    (q : Query) (g : G) (columns : list Value) (rows : list Row) (w : World) :
  get_entity_metadata (repo_entity_class self) = Some (repo_metadata self) ->
  heap w !! a = Some (Entity (repo_entity_class self) attrs) ->
  node_statement_of (repo_metadata self) attrs = inr q ->
  graph_query (graph w) (fst q) (snd q) = (g, inr (RList columns :: rows)) ->
  (length columns < 2)%nat ->
  save (S fuel) self a w
  = (Raise (QueryException "Failed to save entity" IndexError), after_query w g q true).
Proof.
  intros Hreg Ha Hq Hans Hlen. rewrite (save_from_statement _ _ _ _ _ _ Hreg Ha Hq).
  apply try_except_raise_raise.
  rewrite (bind_ret _ _ _ _ _ (query_answered _ _ _ _ Hans)).
  destruct columns as [|c0 [|c1 columns]]; cbn [length] in Hlen; try lia; reflexivity.
Qed.

(** X4. [find_by_id] issues one statement, the eager-loading statement
    when relationship names are requested and the match-by-id statement
    otherwise; when the store answers it with no row the call returns
    [None] and leaves the heap as it was. An empty [fetch] list is no
    request. *)
Theorem find_by_id_without_row
    (self : Repository) (entity_id : Value) (fetch : option (list string))
    (g : G) (w : World) :
  (graph_query (graph w) (fst (find_by_id_query self entity_id fetch))
     (snd (find_by_id_query self entity_id fetch)) = (g, inr []) ->
   find_by_id self entity_id fetch w
   = (Ret None, after_query w g (find_by_id_query self entity_id fetch) true)) /\
  find_by_id self entity_id (Some []) w = find_by_id self entity_id None w /\
  find_by_id_query self entity_id (Some [])
  = build_match_by_id_query (repo_metadata self) entity_id.
Proof.
  split; [|split; reflexivity].
  unfold find_by_id, find_by_id_query. intros Hans. apply try_except_raise_ret.
  destruct (fetch_requested fetch) as [hints|];
    rewrite (bind_ret _ _ _ _ _ (query_answered _ _ _ _ Hans)); reflexivity.
Qed.


(** A query followed by quiet work that returns: the query was answered
    and is the only statement. *)
Lemma query_then_quiet_returns {A} (q : Query) (k : list Row -> M A) h w r w' :
  (forall rs, satisfies quiet (k rs)) ->
  try_except_raise (bind (query q) k) h w = (Ret r, w') ->
  issued w w' [(q, true)].
Proof.
  intros Hk. unfold try_except_raise, bind, query, issued.
  destruct (graph_query (graph w) (fst q) (snd q)) as [g [msg|rs]]; [discriminate|].
  specialize (Hk rs (after_query w g q true)). unfold after_query in Hk.
  destruct (k rs _) as [[a|e|] w1]; try discriminate.
  intros [= <- <-]. now destruct Hk as (Hlog & _).
Qed.

Lemma find_by_id_returns_issued self entity_id w r w' :
  find_by_id self entity_id None w = (Ret r, w') ->
  issued w w' [(build_match_by_id_query (repo_metadata self) entity_id, true)].
Proof.
  unfold find_by_id. cbn [fetch_requested]. apply query_then_quiet_returns.
  intros [|record rows]; [apply quiet_ret|].
  apply quiet_bind; [apply quiet_map_from_record|intros e; apply quiet_ret].
Qed.

Lemma find_all_by_id_loop_returns self ids : forall entities w es w',
  find_all_by_id_loop self ids entities w = (Ret es, w') ->
  issued w w' (map (fun entity_id =>
                      (build_match_by_id_query (repo_metadata self) entity_id, true)) ids) /\
  exists found, es = (entities ++ found)%list /\ (length found <= length ids)%nat.
Proof.
  induction ids as [|entity_id rest IH]; intros entities w es w'; cbn [find_all_by_id_loop].
  - intros [= <- <-]. split; [unfold issued; now rewrite app_nil_r|].
    exists []. now rewrite app_nil_r.
  - unfold bind at 1.
    destruct (find_by_id self entity_id None w) as [[r|e|] w1] eqn:Hfind; try discriminate.
    intros Hrest. apply find_by_id_returns_issued in Hfind.
    destruct (IH _ _ _ _ Hrest) as (Hlog & found & -> & Hlen).
    split.
    + unfold issued in *. rewrite Hlog, Hfind. cbn [map]. now rewrite <- app_assoc.
    + destruct r as [e|].
      * exists (e :: found). rewrite <- app_assoc. split; [reflexivity|]. cbn [length]. lia.
      * exists found. split; [reflexivity|]. cbn [length]. lia.
Qed.

(** X6. [find_all_by_id] looks the ids up one by one: when it returns it
    has issued one match-by-id statement per id, in the order of the ids,
    each answered, and nothing else; it returns at most one entity per id.
    On no ids it returns the empty list and issues nothing. *)
Theorem find_all_by_id_one_query_per_id
    (self : Repository) (ids : list Value) (es : list nat) (w : World) :
  fst (find_all_by_id self ids w) = Ret es ->
  issued w (snd (find_all_by_id self ids w))
    (map (fun entity_id =>
            (build_match_by_id_query (repo_metadata self) entity_id, true)) ids) /\
  (length es <= length ids)%nat /\
  find_all_by_id self [] w = (Ret [], w).
Proof.
  intros Hret. unfold find_all_by_id in *.
  destruct (find_all_by_id_loop self ids [] w) as [r w'] eqn:Hloop. cbn [fst snd] in *.
  subst r. destruct (find_all_by_id_loop_returns _ _ _ _ _ _ Hloop)
    as (Hlog & found & -> & Hlen).
  split; [exact Hlog|]. split; [exact Hlen|reflexivity].
Qed.

End MoreRepository.

(** ** The single proxy *)

Section Single.

Context {schema : Schema} {store : Store}.





End Single.

(** ** Eager loading: what the mapper reads of a row *)

Section Hints.

Context {schema : Schema} {store : Store}.


(** When no requested name is both a column of the row and a declared
    relationship, [map_with_relationships] is [map_from_record]. *)
Lemma map_with_relationships_plain record cls hints metadata (w : World) :
  get_entity_metadata cls = Some metadata ->
  Forall (fun hint => hint_in_record hint record = false \/
                      get_relationship_by_python_name metadata hint = None) hints ->
  map_with_relationships record cls hints w = map_from_record record cls "n" w.
Proof.
  intros Hreg Hhints. unfold map_with_relationships, map_from_record.
  destruct (lift_exn (record_node record "n") w) as [[node|e|] w0] eqn:Hnode;
    [|unfold bind; now rewrite Hnode..].
  rewrite !(bind_ret _ _ _ _ _ Hnode).
  destruct (map_from_node node cls w0) as [[entity|e|] w1] eqn:Hmap;
    [|unfold bind; now rewrite Hmap..].
  rewrite (bind_ret _ _ _ _ _ Hmap).
  rewrite (bind_ret _ _ w1 metadata w1)
    by (unfold mapper_get_entity_metadata; cbn [mbind option_bind]; now rewrite Hreg).
  rewrite (bind_ret _ _ w1 tt w1); [reflexivity|].
  apply for_each_skip. intros hint Hin.
  rewrite Forall_forall in Hhints. destruct (Hhints hint Hin) as [Hcol|Hrel].
  - now rewrite Hcol.
  - rewrite Hrel. now destruct (negb _).
Qed.

Lemma fetch_clauses_unknown metadata hints :
  Forall (fun hint => get_relationship_by_python_name metadata hint = None) hints ->
  fetch_clauses metadata hints = [].
Proof.
  induction 1 as [|hint hints Hhint _ IH]; [reflexivity|].
  unfold fetch_clauses in *. cbn [omap list_omap]. unfold fetch_clause at 1.
  now rewrite Hhint.
Qed.

(** X8. Requested names that are no declared relationship are passed
    over without an error: both eager-loading statements are built with no
    [OPTIONAL MATCH] and only the column [n], and the mapper hydrates the
    row as [map_from_record] does. *)
Theorem unknown_fetch_hints_ignored
    (metadata : EntityMetadata) (cls : string) (entity_id : Value)
    (hints : list string) (record : Row) (w : World) :
  get_entity_metadata cls = Some metadata ->
  Forall (fun hint => get_relationship_by_python_name metadata hint = None) hints ->
  build_eager_loading_query metadata entity_id hints
  = (EagerLoading (labels_str metadata) (uses_internal_id metadata) [],
     {[ "id" := entity_id ]}) /\
  build_eager_loading_query_all metadata hints
  = (EagerLoadingAll (labels_str metadata) [], ∅) /\
  cypher_text (fst (build_eager_loading_query_all metadata hints))
  = String.concat nl ["MATCH (n:" ++ labels_str metadata ++ ")"; "RETURN n"] /\
  map_with_relationships record cls hints w = map_from_record record cls "n" w.
Proof.
  intros Hreg Hhints.
  unfold build_eager_loading_query, build_eager_loading_query_all.
  rewrite (fetch_clauses_unknown _ _ Hhints).
  split; [reflexivity|]. split; [reflexivity|]. split; [reflexivity|].
  apply (map_with_relationships_plain _ _ _ metadata); [exact Hreg|].
  eapply Forall_impl; [exact Hhints|]. intros hint Hhint. now right.
Qed.


End Hints.

(** ** Derived queries *)

Section DerivedFacts.

Import Derived.
Import Stdlib.Strings.Ascii.
Local Open Scope string_scope.

(** *** Strings *)

Lemma string_app_assoc (s1 s2 s3 : string) : (s1 ++ s2) ++ s3 = s1 ++ (s2 ++ s3).
Proof.
  induction s1 as [|c s1 IH]; [reflexivity|].
  change (String c ((s1 ++ s2) ++ s3) = String c (s1 ++ (s2 ++ s3))). now rewrite IH.
Qed.

Lemma string_app_nil_r (s : string) : s ++ "" = s.
Proof.
  induction s as [|c s IH]; [reflexivity|].
  change (String c (s ++ "") = String c s). now rewrite IH.
Qed.

Lemma substring_drop (n : nat) (s : string) :
  String.substring 0 n s ++ string_drop n s = s.
Proof.
  revert s. induction n as [|n IH]; intros [|c s]; try reflexivity.
  change (String c (String.substring 0 n s ++ string_drop n s) = String c s).
  now rewrite IH.
Qed.

(** A suffix found by [endswith] is what [text[:-len(suffix)]] leaves out. *)
Lemma ends_with_split (suffix s : string) :
  ends_with suffix s = true -> s = drop_suffix suffix s ++ suffix.
Proof.
  unfold ends_with, drop_suffix. intros H. apply andb_prop in H as [_ H].
  apply String.eqb_eq in H.
  pose proof (substring_drop (String.length s - String.length suffix) s) as Hcut.
  rewrite H in Hcut. now symmetry.
Qed.

Lemma param_name_inj (i j : nat) : param_name i = param_name j -> i = j.
Proof.
  unfold param_name. intros H. apply String.app_inj in H.
  now apply pretty.pretty_nat_inj in H.
Qed.

(** *** The parser *)




Lemma parse_single_condition_count (text : string) :
  param_count (parse_single_condition text)
  = param_count_of (operator (parse_single_condition text)).
Proof.
  unfold parse_single_condition.
  destruct (match_operator OPERATOR_PATTERNS text) as [c|] eqn:Hmatch; [|reflexivity].
  revert Hmatch. generalize OPERATOR_PATTERNS.
  induction l as [|[suffix op] rest IH]; cbn; [discriminate|].
  destruct (ends_with suffix text); [now intros [= <-]|exact IH].
Qed.



(** *** The where clause *)

Lemma needed_cons (c : Condition) (rest : list Condition) :
  needed (c :: rest) = (param_count_of (operator c) + needed rest)%nat.
Proof. reflexivity. Qed.

Lemma build_condition_clause_runs (c : Condition) (values : list Value) (idx : nat) :
  (idx + param_count_of (operator c) <= length values)%nat ->
  exists clause params,
    build_condition_clause c values idx
    = inr (clause, params, (idx + param_count_of (operator c))%nat) /\
    (forall i, (idx <= i < idx + param_count_of (operator c))%nat ->
               params !! param_name i = values !! i) /\
    (forall k, (forall i, (idx <= i < idx + param_count_of (operator c))%nat ->
                          k <> param_name i) ->
               params !! k = None).
Proof.
  intros Hlen. unfold build_condition_clause, one_parameter.
  destruct (operator c); cbn [param_count_of] in *;
    try (destruct (values !! idx) as [v|] eqn:Hv;
         [|apply lookup_ge_None in Hv; lia];
         eexists _, _; split; [reflexivity|]; split;
         [intros i Hi; assert (i = idx) as -> by lia; rewrite Hv; apply lookup_singleton_eq
         |intros k Hk; apply lookup_singleton_ne; intros Heq; apply (Hk idx); [lia|congruence]]).
  - destruct (values !! idx) as [v1|] eqn:Hv1; [|apply lookup_ge_None in Hv1; lia].
    destruct (values !! (idx + 1)%nat) as [v2|] eqn:Hv2;
      [|apply lookup_ge_None in Hv2; lia].
    eexists _, _. split; [reflexivity|]. split.
    + intros i Hi. destruct (decide (i = idx)) as [->|Hne].
      * rewrite lookup_insert_ne by (intros Heq; apply param_name_inj in Heq; lia).
        rewrite Hv1. apply lookup_singleton_eq.
      * assert (i = (idx + 1)%nat) as -> by lia. rewrite Hv2. apply lookup_insert_eq.
    + intros k Hk. rewrite lookup_insert_ne by (intros Heq; apply (Hk (idx + 1)%nat); [lia|congruence]).
      apply lookup_singleton_ne. intros Heq. apply (Hk idx); [lia|congruence].
  - eexists _, _. rewrite Nat.add_0_r. split; [reflexivity|]. split.
    + intros i Hi. lia.
    + intros k _. apply lookup_empty.
  - eexists _, _. rewrite Nat.add_0_r. split; [reflexivity|]. split.
    + intros i Hi. lia.
    + intros k _. apply lookup_empty.
Qed.

Lemma build_condition_clause_fails (c : Condition) (values : list Value) (idx : nat) :
  (idx <= length values)%nat ->
  (length values < idx + param_count_of (operator c))%nat ->
  build_condition_clause c values idx = inl IndexError.
Proof.
  intros Hidx Hlen. unfold build_condition_clause, one_parameter.
  destruct (operator c); cbn [param_count_of] in *;
    try (rewrite (proj2 (lookup_ge_None values idx)) by lia; reflexivity);
    try lia.
  destruct (values !! idx) as [v1|]; [|reflexivity].
  now rewrite (proj2 (lookup_ge_None values (idx + 1)%nat)) by lia.
Qed.

Lemma where_loop_runs (conditions : list Condition) (values : list Value) :
  forall idx clauses params,
  (idx + needed conditions <= length values)%nat ->
  exists clauses' params',
    where_loop conditions values idx clauses params
    = inr ((clauses ++ clauses')%list, params') /\
    length clauses' = length conditions /\
    (forall i, (idx <= i < idx + needed conditions)%nat ->
               params' !! param_name i = values !! i) /\
    (forall k, (forall i, (idx <= i < idx + needed conditions)%nat -> k <> param_name i) ->
               params' !! k = params !! k).
Proof.
  induction conditions as [|c rest IH]; intros idx clauses params Hlen;
    [cbn in *|rewrite needed_cons in *; cbn [where_loop]].
  - exists [], params. rewrite app_nil_r. repeat split; auto. intros i Hi. lia.
  - destruct (build_condition_clause_runs c values idx ltac:(lia))
      as (clause & cparams & -> & Hbound & Hfree).
    destruct (IH (idx + param_count_of (operator c))%nat (clauses ++ [clause])%list
                (cparams ∪ params) ltac:(lia))
      as (clauses' & params' & -> & Hlen' & Hbound' & Hfree').
    exists (clause :: clauses'), params'. rewrite <- app_assoc. cbn [app length].
    split; [reflexivity|]. split; [now rewrite Hlen'|]. split.
    + intros i Hi.
      destruct (decide (i < idx + param_count_of (operator c))%nat) as [Hlt|Hge].
      * rewrite Hfree' by (intros j Hj Heq; apply param_name_inj in Heq; lia).
        destruct (values !! i) as [v|] eqn:Hv; [|apply lookup_ge_None in Hv; lia].
        apply lookup_union_Some_l. rewrite Hbound by lia. exact Hv.
      * apply Hbound'. lia.
    + intros k Hk. rewrite Hfree' by (intros j Hj; apply Hk; lia).
      rewrite lookup_union_r; [reflexivity|]. apply Hfree. intros j Hj. apply Hk. lia.
Qed.

Lemma where_loop_fails (conditions : list Condition) (values : list Value) :
  forall idx clauses params,
  (idx <= length values)%nat ->
  (length values < idx + needed conditions)%nat ->
  where_loop conditions values idx clauses params = inl IndexError.
Proof.
  induction conditions as [|c rest IH]; intros idx clauses params Hidx Hlen;
    [cbn in *; lia|rewrite needed_cons in *; cbn [where_loop]].
  destruct (decide (idx + param_count_of (operator c) <= length values)%nat) as [Hok|Hno].
  - destruct (build_condition_clause_runs c values idx Hok) as (clause & cparams & -> & _).
    apply IH; lia.
  - rewrite build_condition_clause_fails by lia. reflexivity.
Qed.

Lemma build_where_clause_runs (conditions : list Condition)
    (logical_op : LogicalOperator) (param_values : list Value) :
  (needed conditions <= length param_values)%nat ->
  exists where_clause params,
    build_where_clause conditions logical_op param_values = inr (where_clause, params) /\
    (forall i, (i < needed conditions)%nat ->
               params !! param_name i = param_values !! i) /\
    (forall k, (forall i, (i < needed conditions)%nat -> k <> param_name i) ->
               params !! k = None).
Proof.
  intros Hlen.
  destruct (where_loop_runs conditions param_values 0 [] ∅ Hlen)
    as (clauses & params & Hloop & _ & Hbound & Hfree).
  unfold build_where_clause. rewrite Hloop.
  destruct conditions as [|c rest].
  - exists "", ∅. split; [reflexivity|]. split; [intros i Hi; cbn in Hi; lia|].
    intros k _. apply lookup_empty.
  - eexists _, params. split; [reflexivity|]. split.
    + intros i Hi. apply Hbound. lia.
    + intros k Hk. rewrite Hfree; [apply lookup_empty|]. intros i Hi. apply Hk. lia.
Qed.

(** X14. [build_where_clause] binds the call's arguments by position. The
    conditions take their parameters from [param_values] in order (two for
    BETWEEN, none for IS NULL and IS NOT NULL, one otherwise): when there
    are enough values, the clause is built and the parameters are exactly
    [p0], [p1], ... up to the number taken, [p<i>] holding the value at
    position [i]; values beyond that number are not used. When there are
    too few values the builder raises [IndexError]; with no condition it
    returns the empty clause and no parameter. *)
Theorem where_clause_binds_by_position
    (conditions : list Condition) (logical_op : LogicalOperator)
    (param_values : list Value) :
  (conditions = [] -> build_where_clause conditions logical_op param_values = inr ("", ∅)) /\
  ((needed conditions <= length param_values)%nat ->
   exists where_clause params,
     build_where_clause conditions logical_op param_values = inr (where_clause, params) /\
     (forall i, (i < needed conditions)%nat ->
                params !! param_name i = param_values !! i) /\
     (forall k, (forall i, (i < needed conditions)%nat -> k <> param_name i) ->
                params !! k = None)) /\
  ((length param_values < needed conditions)%nat ->
   build_where_clause conditions logical_op param_values = inl IndexError).
Proof.
  split; [now intros ->|]. split.
  - apply build_where_clause_runs.
  - intros Hlen. unfold build_where_clause.
    rewrite where_loop_fails by lia.
    destruct conditions; [cbn in Hlen; lia|reflexivity].
Qed.

(** *** The derived query method *)



(** X16. A limit of zero is no limit, and only find queries order and
    limit. A text that starts with [top_0_] parses to a limit of 0, which
    [build_derived_query] treats like a missing limit, so the statement
    has no LIMIT clause; and the statements of count, exists and delete
    queries are built from the conditions alone, whatever ordering and
    limit the name carries. *)
Theorem limit_zero_and_ordering_of_other_operations
    (metadata : EntityMetadata) (op : Operation) (conditions : list Condition)
    (logical_op : LogicalOperator) (ordering : list OrderClause) (limit : option Z)
    (param_values : list Value) :
  let query ordering limit :=
    build_derived_query metadata
      {| operation := op; conditions := conditions; logical_operator := logical_op;
         ordering := ordering; limit := limit |} param_values in
  query ordering (Some 0%Z) = query ordering None /\
  (forall rest, extract_limit ("top_0_" ++ rest) = Some 0%Z) /\
  (op <> FIND -> query ordering limit = query [] None).
Proof.
  cbv zeta. split; [|split].
  - unfold build_derived_query. cbn [Derived.conditions Derived.logical_operator
      Derived.ordering Derived.limit Derived.operation].
    reflexivity.
  - intros rest. reflexivity.
  - intros Hop. unfold build_derived_query.
    cbn [Derived.conditions Derived.logical_operator
      Derived.ordering Derived.limit Derived.operation].
    destruct (build_where_clause conditions logical_op param_values) as [e|[where_clause params]];
      [reflexivity|].
    destruct op; [congruence|reflexivity..].
Qed.

(** *** Ordering *)

Lemma match_direction_group (s group : string) (n : nat) :
  match_direction s = Some (group, n) -> upper group = "ASC" \/ upper group = "DESC".
Proof.
  unfold match_direction.
  destruct (String.prefix "_asc" s); [intros [= <- _]; now left|].
  destruct (String.prefix "_desc" s); [intros [= <- _]; now right|discriminate].
Qed.

Lemma order_pairs_directions (s : string) :
  forall skip cur,
  Forall (fun o => (o_direction o = "ASC" \/ o_direction o = "DESC")
                   /\ o_property_name o <> "")
    (order_pairs (re_split_go s skip cur)).
Proof.
  induction s as [|c s IH]; intros skip cur; [constructor|].
  cbn [re_split_go]. destruct skip as [|k]; [|apply IH].
  destruct (match_direction (String c s)) as [[group n]|] eqn:Hmatch; [|apply IH].
  cbn [order_pairs]. apply Forall_app. split; [|apply IH].
  destruct cur as [|c' cur]; cbn [non_empty]; constructor; [|constructor].
  cbn [o_direction o_property_name]. split; [|discriminate].
  exact (match_direction_group _ _ _ Hmatch).
Qed.

Lemma re_split_without_direction (s : string) :
  contains "_asc" s = false -> contains "_desc" s = false ->
  forall cur, exists part, re_split_go s 0 cur = [part].
Proof.
  induction s as [|c s IH]; intros Hasc Hdesc cur; [now exists cur|].
  cbn [contains] in Hasc, Hdesc.
  apply orb_false_iff in Hasc as [Hasc Hasc'], Hdesc as [Hdesc Hdesc'].
  cbn [re_split_go]. unfold match_direction. rewrite Hasc, Hdesc.
  now apply IH.
Qed.

(** X17. Every ordering that [_parse_ordering] returns names a property
    that is not empty and has the direction [ASC] or [DESC]. A property
    is only read when [_asc] or [_desc] follows it: an ordering text that
    contains neither gives no ordering at all, so a name such as
    [find_by_age_order_by_name] is answered unordered. *)
Theorem ordering_needs_a_direction (text : string) :
  Forall (fun o => (o_direction o = "ASC" \/ o_direction o = "DESC")
                   /\ o_property_name o <> "")
    (parse_ordering text) /\
  (contains "_asc" text = false -> contains "_desc" text = false ->
   parse_ordering text = []).
Proof.
  unfold parse_ordering. split.
  - destruct (non_empty text); [apply order_pairs_directions|constructor].
  - intros Hasc Hdesc. destruct (non_empty text); [|reflexivity].
    destruct (re_split_without_direction text Hasc Hdesc "") as [part ->].
    reflexivity.
Qed.

(** *** Operator suffixes *)

Lemma length_app_string (s1 s2 : string) :
  String.length (s1 ++ s2) = (String.length s1 + String.length s2)%nat.
Proof.
  induction s1 as [|c s1 IH]; [reflexivity|].
  change (S (String.length (s1 ++ s2)) = S (String.length s1 + String.length s2)).
  now rewrite IH.
Qed.

Lemma string_drop_app (s1 s2 : string) : string_drop (String.length s1) (s1 ++ s2) = s2.
Proof.
  induction s1 as [|c s1 IH]; [now destruct s2|].
  change (string_drop (String.length s1) (s1 ++ s2) = s2). exact IH.
Qed.

Lemma substring_app (s1 s2 : string) :
  String.substring 0 (String.length s1) (s1 ++ s2) = s1.
Proof.
  induction s1 as [|c s1 IH]; [now destruct s2|].
  change (String c (String.substring 0 (String.length s1) (s1 ++ s2)) = String c s1).
  now rewrite IH.
Qed.

Lemma ends_with_app (prop suffix : string) : ends_with suffix (prop ++ suffix) = true.
Proof.
  unfold ends_with. rewrite length_app_string.
  replace (String.length prop + String.length suffix - String.length suffix)%nat
    with (String.length prop) by lia.
  rewrite string_drop_app. apply andb_true_intro. split.
  - apply Nat.leb_le. lia.
  - apply String.eqb_refl.
Qed.

Lemma drop_suffix_app (prop suffix : string) : drop_suffix suffix (prop ++ suffix) = prop.
Proof.
  unfold drop_suffix. rewrite length_app_string.
  replace (String.length prop + String.length suffix - String.length suffix)%nat
    with (String.length prop) by lia.
  apply substring_app.
Qed.

Lemma match_operator_first (patterns : list (string * Operator)) (text : string) c :
  match_operator patterns text = Some c ->
  exists before suffix after,
    patterns = (before ++ (suffix, operator c) :: after)%list /\
    Forall (fun pattern => ends_with pattern.1 text = false) before /\
    text = c_property_name c ++ suffix /\
    param_count c = param_count_of (operator c).
Proof.
  induction patterns as [|[suffix op] rest IH]; cbn [match_operator]; [discriminate|].
  destruct (ends_with suffix text) eqn:Hends.
  - intros [= <-]. exists [], suffix, rest. cbn [operator c_property_name param_count].
    split; [reflexivity|]. split; [constructor|]. split; [|reflexivity].
    now apply ends_with_split.
  - intros Hrest. destruct (IH Hrest) as (before & suffix' & after & -> & Hbefore & Htext).
    exists ((suffix, op) :: before), suffix', after. split; [reflexivity|].
    split; [|exact Htext]. constructor; [exact Hends|exact Hbefore].
Qed.

Lemma match_operator_none (patterns : list (string * Operator)) (text : string) :
  match_operator patterns text = None ->
  Forall (fun pattern => ends_with pattern.1 text = false) patterns.
Proof.
  induction patterns as [|[suffix op] rest IH]; cbn [match_operator]; [constructor|].
  destruct (ends_with suffix text) eqn:Hends; [discriminate|].
  intros Hrest. constructor; [exact Hends|now apply IH].
Qed.

Lemma match_operator_app (before after : list (string * Operator)) (text : string) :
  Forall (fun pattern => ends_with pattern.1 text = false) before ->
  match_operator (before ++ after) text = match_operator after text.
Proof.
  induction 1 as [|[suffix op] before Hends _ IH]; [reflexivity|].
  cbn [app match_operator]. cbn [fst] in Hends. now rewrite Hends.
Qed.

(** X18. [_parse_single_condition] splits a condition at the first suffix
    of [OPERATOR_PATTERNS] that ends it. The parsed condition either has
    the operator of that pattern, with the property name and the suffix
    making up the text again, or, when no suffix ends the text, is an
    equality on the whole text; in both cases its parameter count is the
    one of its operator. The other way round, a property name followed by
    the suffix of a pattern is parsed as that property with that operator
    whenever no earlier pattern ends the text. *)
Theorem condition_splits_at_first_suffix (text : string) :
  let c := parse_single_condition text in
  param_count c = param_count_of (operator c) /\
  ((exists before suffix after,
      OPERATOR_PATTERNS = (before ++ (suffix, operator c) :: after)%list /\
      Forall (fun pattern => ends_with pattern.1 text = false) before /\
      text = c_property_name c ++ suffix)
   \/ (operator c = EQUALS /\ c_property_name c = text /\
       Forall (fun pattern => ends_with pattern.1 text = false) OPERATOR_PATTERNS)) /\
  (forall before suffix op after prop,
      OPERATOR_PATTERNS = (before ++ (suffix, op) :: after)%list ->
      text = prop ++ suffix ->
      Forall (fun pattern => ends_with pattern.1 text = false) before ->
      c = {| c_property_name := prop; operator := op; param_count := param_count_of op |}).
Proof.
  cbv zeta. split; [apply parse_single_condition_count|]. split.
  - unfold parse_single_condition.
    destruct (match_operator OPERATOR_PATTERNS text) as [c|] eqn:Hmatch.
    + left. destruct (match_operator_first _ _ _ Hmatch)
        as (before & suffix & after & Hpatterns & Hbefore & Htext & _).
      now exists before, suffix, after.
    + right. cbn [operator c_property_name]. split; [reflexivity|].
      split; [reflexivity|]. now apply match_operator_none.
  - intros before suffix op after prop Hpatterns -> Hbefore.
    unfold parse_single_condition. rewrite Hpatterns, match_operator_app by exact Hbefore.
    cbn [match_operator]. now rewrite ends_with_app, drop_suffix_app.
Qed.

(** *** Names of one property *)














(** X20. A derived query without conditions is the statement of the
    repository's own method: for a specification with no condition, a
    find without ordering and limit builds the statement of [find_all], a
    count that of [count] and a delete that of [delete_all], with no
    parameters, whatever values are passed and whatever ordering and limit
    a count or delete carries. *)
Theorem derived_without_conditions
    (metadata : EntityMetadata) (logical_op : LogicalOperator)
    (ordering : list OrderClause) (limit : option Z) (param_values : list Value) :
  let query op ordering limit :=
    build_derived_query metadata
      {| operation := op; conditions := []; logical_operator := logical_op;
         ordering := ordering; limit := limit |} param_values in
  query FIND [] None = inr (cypher_text (fst (build_match_all_query metadata)), ∅) /\
  query COUNT ordering limit = inr (build_count_query_text metadata, ∅) /\
  query DELETE ordering limit = inr (build_delete_all_query_text metadata, ∅).
Proof.
  cbv zeta. unfold build_derived_query, build_count_query_text, build_delete_all_query_text.
  cbn [Derived.conditions Derived.logical_operator Derived.ordering Derived.limit
       Derived.operation build_where_clause].
  unfold with_where. cbn [non_empty].
  change (build_order_by_clause []) with "". change (limit_clause None) with "".
  cbn [non_empty build_match_all_query fst cypher_text].
  split; [|split]; f_equal; f_equal;
    rewrite ?string_app_nil_r, !string_app_assoc; reflexivity.
Qed.

End DerivedFacts.

(** ** What a save leaves alone *)

Section Frames.

Context {schema : Schema} {store : Store}.












End Frames.

(** ** Ids are assigned once *)

Section Ids.

Context {schema : Schema} {store : Store}.

Lemma ids_kept_refl w o : ids_kept w o w.
Proof. split; [lia|]. intros a cls attrs Ha. split; eauto. Qed.

Lemma ids_kept_seq w w1 w2 o o' :
  ids_kept w o' w1 -> ids_kept w1 o w2 -> ids_kept w o w2.
Proof.
  intros [Hlen1 H1] [Hlen2 H2]. split; [lia|].
  intros a cls attrs Ha. destruct (H1 a cls attrs Ha) as [[attrs1 Ha1] Hid1].
  destruct (H2 a cls attrs1 Ha1) as [[attrs2 Ha2] Hid2].
  split; eauto.
Qed.

Lemma ids_kept_outcome w o o' w' : ids_kept w o w' -> ids_kept w o' w'.
Proof. exact id. Qed.

(** A heap that agrees on the entities keeps their ids. *)
Lemma ids_kept_entities (w w' : World) o :
  (length (heap w) <= length (heap w'))%nat ->
  (forall a cls attrs, heap w !! a = Some (Entity cls attrs) ->
                       heap w' !! a = Some (Entity cls attrs)) ->
  ids_kept w o w'.
Proof.
  intros Hlen H. split; [exact Hlen|]. intros a cls attrs Ha.
  pose proof (H a cls attrs Ha) as Ha'. split; [eauto|].
  unfold id_of. now rewrite Ha, Ha'.
Qed.

Lemma ids_kept_alloc w obj : ids_kept w Returned (snd (alloc obj w)).
Proof.
  cbn [alloc snd]. apply ids_kept_entities; cbn [heap]; [rewrite length_app; lia|].
  intros a cls attrs Ha. rewrite lookup_app_l by now apply lookup_lt_Some in Ha.
  exact Ha.
Qed.

Lemma ids_kept_set_tracker (w : World) manager t o :
  ids_kept w o {| heap := set_tracker_in (heap w) manager t;
                  graph := graph w; log := log w |}.
Proof.
  apply ids_kept_entities; cbn [heap]; [rewrite length_set_tracker_in; lia|].
  intros a cls attrs Ha. destruct (decide (a = manager)) as [->|Hne].
  - unfold set_tracker_in. now rewrite Ha.
  - now rewrite lookup_set_tracker_in.
Qed.

Lemma ids_kept_query q : satisfies ids_kept (query q).
Proof.
  intros w. unfold query.
  destruct (graph_query (graph w) (fst q) (snd q)) as [g [msg|rs]]; cbn [fst snd];
    apply ids_kept_entities; cbn [heap]; auto.
Qed.

Lemma ids_kept_guard manager key (body : M unit) w :
  key ∉ tracker_of (heap w) manager ->
  satisfies ids_kept body ->
  ids_kept w
    (outcome (fst (bind (tracker_add manager key)
                     (fun _ => try_finally body (tracker_discard manager key)) w)))
    (snd (bind (tracker_add manager key)
            (fun _ => try_finally body (tracker_discard manager key)) w)).
Proof.
  intros _ Hbody. unfold bind, tracker_add, try_finally.
  set (w1 := {| heap := set_tracker_in (heap w) manager
                          ({[key]} ∪ tracker_of (heap w) manager);
                graph := graph w; log := log w |}).
  assert (H1 : ids_kept w Returned w1) by apply ids_kept_set_tracker.
  specialize (Hbody w1).
  destruct (body w1) as [[[]|e|] w2]; cbn [fst snd outcome] in *.
  - eapply ids_kept_seq; [exact H1|]. eapply ids_kept_seq; [exact Hbody|].
    apply ids_kept_set_tracker.
  - eapply ids_kept_seq; [exact H1|]. eapply ids_kept_seq; [exact Hbody|].
    apply ids_kept_set_tracker.
  - eapply ids_kept_seq; [exact H1|exact Hbody].
Qed.

(** Setting the id of an entity that has none keeps the ids there are. *)
Lemma ids_kept_update_entity_id (entity : nat) (node_id : Z) (w : World) :
  id_of (heap w) entity = None ->
  ids_kept w (outcome (fst (update_entity_id entity node_id w)))
    (snd (update_entity_id entity node_id w)).
Proof.
  intros Hnone. unfold update_entity_id. rewrite bind_get_world.
  destruct (mapper_get_entity_metadata (class_of (heap w) (VRef entity)))
    as [e|metadata]; [apply ids_kept_refl|].
  rewrite (bind_ret _ _ w metadata w) by reflexivity.
  destruct (id_property metadata) as [idp|]; [|apply ids_kept_refl].
  cbn [setattr fst snd outcome]. split; [cbn [heap]; rewrite length_setattr_in; lia|].
  intros a cls attrs Ha. cbn [heap].
  destruct (decide (a = entity)) as [Heq|Hne].
  - subst a. split.
    + unfold setattr_in. rewrite Ha.
      rewrite list_lookup_insert_eq by now apply lookup_lt_Some in Ha. eauto.
    + intros v Hv. congruence.
  - split.
    + rewrite lookup_setattr_in_ne by assumption. eauto.
    + unfold id_of. now rewrite lookup_setattr_in_ne by assumption.
Qed.

(** The invariant at one world. *)
Lemma ids_kept_bind_at {A B} (c : M A) (k : A -> M B) w :
  ids_kept w (outcome (fst (c w))) (snd (c w)) ->
  (forall a w1, c w = (Ret a, w1) ->
                ids_kept w1 (outcome (fst (k a w1))) (snd (k a w1))) ->
  ids_kept w (outcome (fst (bind c k w))) (snd (bind c k w)).
Proof.
  intros Hc Hk. unfold bind. destruct (c w) as [[a|e|] w1]; cbn [fst snd] in *;
    try exact Hc.
  eapply ids_kept_seq; [exact Hc|]. now apply Hk.
Qed.

Section Callback.

Variable save_rec : Repository -> nat -> M nat.
Hypothesis save_rec_ids_kept : forall self entity w,
  well_formed self ->
  class_of (heap w) (VRef entity) = Some (repo_entity_class self) ->
  ids_kept w (outcome (fst (save_rec self entity w))) (snd (save_rec self entity w)).

Lemma ids_kept_get_or_save_related_entity entity rel_meta :
  satisfies ids_kept (get_or_save_related_entity save_rec entity rel_meta).
Proof.
  intros w. unfold get_or_save_related_entity.
  destruct (is_None entity); [apply ids_kept_refl|].
  rewrite bind_get_world.
  destruct (class_of (heap w) entity) as [cls|] eqn:Hcls;
    [|unfold bind; cbn; apply ids_kept_refl].
  unfold mapper_get_entity_metadata. cbn [mbind option_bind].
  destruct (get_entity_metadata cls) as [metadata|] eqn:Hreg;
    [|unfold bind; cbn; apply ids_kept_refl].
  rewrite (bind_ret _ _ w metadata w) by reflexivity.
  destruct (id_property metadata) as [idp|]; [|apply ids_kept_refl].
  destruct entity as [| | | |a| | | |]; try apply ids_kept_refl.
  rewrite (bind_ret _ _ w (getattr_in (heap w) (VRef a) (p_python_name idp)) w)
    by reflexivity.
  destruct (negb _); [apply ids_kept_refl|].
  destruct (cascade rel_meta); [|apply ids_kept_refl].
  unfold entity_class_of_ref. rewrite Hcls. cbn [default from_option id].
  set (target_repo := {| repo_entity_class := cls; repo_metadata := metadata;
                         relationship_manager := length (heap w) |}).
  set (w1 := snd (alloc (RelationshipManager ∅) w)).
  assert (Hnew : new_Repository cls w = (Ret target_repo, w1)).
  { unfold new_Repository, mapper_get_entity_metadata. cbn [mbind option_bind].
    rewrite Hreg. reflexivity. }
  rewrite (bind_ret _ _ _ _ _ Hnew).
  assert (Hkept1 : ids_kept w Returned w1) by apply ids_kept_alloc.
  assert (Hcls1 : class_of (heap w1) (VRef a) = Some cls).
  { subst w1. cbn [alloc snd heap]. unfold class_of in *.
    destruct (heap w !! a) as [o|] eqn:Ha; [|discriminate].
    rewrite lookup_app_l by now apply lookup_lt_Some in Ha. now rewrite Ha. }
  pose proof (save_rec_ids_kept target_repo a w1 Hreg Hcls1) as Hsave.
  unfold bind.
  destruct (save_rec target_repo a w1) as [[saved|e|] w2]; cbn [fst snd outcome] in *;
    eapply ids_kept_seq; eauto.
Qed.

Lemma ids_kept_create_relationship_edge source_id target_id rel_meta :
  satisfies ids_kept (create_relationship_edge source_id target_id rel_meta).
Proof.
  apply satisfies_create_relationship_edge.
  - intros w. apply ids_kept_refl.
  - intros w w1 w2 o. apply ids_kept_seq.
  - intros w e _. apply ids_kept_refl.
  - exact ids_kept_query.
Qed.

Lemma ids_kept_bind {A B} (c : M A) (k : A -> M B) :
  satisfies ids_kept c -> (forall a, satisfies ids_kept (k a)) ->
  satisfies ids_kept (bind c k).
Proof. apply satisfies_bind. intros w w1 w2 o. apply ids_kept_seq. Qed.

Lemma ids_kept_ret {A} (a : A) : satisfies ids_kept (ret a).
Proof. intros w. apply ids_kept_refl. Qed.

Lemma ids_kept_link_related_entity source_id rel_meta related_entity :
  satisfies ids_kept (link_related_entity save_rec source_id rel_meta related_entity).
Proof.
  unfold link_related_entity.
  apply ids_kept_bind; [apply ids_kept_get_or_save_related_entity|intros target_id].
  destruct (negb _); [apply ids_kept_create_relationship_edge|apply ids_kept_ret].
Qed.

Lemma ids_kept_save_relationship_field source_entity source_id is_update rel_meta :
  satisfies ids_kept
    (save_relationship_field save_rec source_entity source_id is_update rel_meta).
Proof.
  unfold save_relationship_field.
  apply ids_kept_bind; [intros w; apply ids_kept_refl|intros rel_value].
  destruct (is_None rel_value); [apply ids_kept_ret|].
  apply ids_kept_bind; [intros w; apply ids_kept_refl|intros w0].
  destruct (is_lazy_proxy _ _); [apply ids_kept_ret|].
  apply ids_kept_bind.
  - destruct is_update; [intros w; apply ids_kept_refl|apply ids_kept_ret].
  - intros _. destruct (is_collection rel_meta).
    + destruct (negb _); [apply ids_kept_ret|].
      apply (satisfies_for_each ids_kept).
      * intros w. apply ids_kept_refl.
      * intros w w1 w2 o. apply ids_kept_seq.
      * intros x. apply ids_kept_link_related_entity.
    + apply ids_kept_link_related_entity.
Qed.

Lemma ids_kept_save_relationships manager source_entity source_id metadata is_update :
  satisfies ids_kept
    (save_relationships save_rec manager source_entity source_id metadata is_update).
Proof.
  intros w. rewrite save_relationships_unfold.
  destruct (decide _) as [Hin|Hnotin]; [apply ids_kept_refl|].
  apply ids_kept_guard; [exact Hnotin|].
  apply (satisfies_for_each ids_kept).
  - intros w0. apply ids_kept_refl.
  - intros w0 w1 w2 o. apply ids_kept_seq.
  - intros rel_meta. apply ids_kept_save_relationship_field.
Qed.

Lemma ids_kept_save_body self entity w :
  well_formed self ->
  class_of (heap w) (VRef entity) = Some (repo_entity_class self) ->
  ids_kept w (outcome (fst (save_body save_rec self entity w)))
    (snd (save_body save_rec self entity w)).
Proof.
  intros Hwf Hcls. unfold save_body.
  assert (Ha : exists attrs, heap w !! entity
                             = Some (Entity (repo_entity_class self) attrs)).
  { unfold class_of in Hcls. destruct (heap w !! entity) as [[]|]; try discriminate.
    injection Hcls as ->. eauto. }
  destruct Ha as [attrs Ha].
  rewrite (bind_ret _ _ _ _ _ (has_id_of_entity (repo_metadata self) entity _ attrs w Ha)).
  assert (Hwrap : forall (c : M nat),
             ids_kept w (outcome (fst (c w))) (snd (c w)) ->
             ids_kept w (outcome (fst (try_except_raise c
                                         (QueryException "Failed to save entity") w)))
               (snd (try_except_raise c (QueryException "Failed to save entity") w))).
  { intros c Hc. unfold try_except_raise. now destruct (c w) as [[r|e|] w']. }
  apply Hwrap. clear Hwrap.
  apply ids_kept_bind_at.
  { rewrite (save_statement_run (repo_metadata self) _ _ _ _ Ha Hwf).
    apply ids_kept_refl. }
  intros q w0 Hq.
  rewrite (save_statement_run (repo_metadata self) _ _ _ _ Ha Hwf) in Hq.
  assert (w0 = w) as -> by (destruct (node_statement_of _ _); congruence).
  clear Hq.
  apply ids_kept_bind_at; [apply ids_kept_query|].
  intros result_set w1 Hquery.
  assert (Hheap : heap w1 = heap w).
  { unfold query in Hquery.
    destruct (graph_query (graph w) (fst q) (snd q)) as [g [msg|rs]];
      [discriminate|]. now injection Hquery as _ <-. }
  apply ids_kept_bind_at; [|intros _ w2 _; apply ids_kept_refl].
  destruct result_set as [|record rows]; [apply ids_kept_refl|].
  apply ids_kept_bind_at.
  { destruct (record_node_id record); apply ids_kept_refl. }
  intros node_id w2 Hnode.
  assert (w2 = w1) as ->.
  { destruct (record_node_id record); unfold lift_exn, raise, ret in Hnode; congruence. }
  clear Hnode.
  apply ids_kept_bind_at.
  - destruct (negb (has_id_value (repo_metadata self) attrs)
              && bool_decide (is_Some (id_property (repo_metadata self)))) eqn:Hupd;
      [|apply ids_kept_refl].
    apply ids_kept_update_entity_id. rewrite Hheap. unfold id_of. rewrite Ha.
    unfold well_formed in Hwf. rewrite Hwf. cbn [mbind option_bind].
    apply andb_prop in Hupd. destruct Hupd as [Hno _].
    unfold has_id_value in Hno.
    destruct (id_property (repo_metadata self)) as [idp|]; [|reflexivity].
    destruct (default VNone (attrs !! p_python_name idp)); try discriminate.
    reflexivity.
  - intros _ w2 _.
    destruct (relationships (repo_metadata self));
      [apply ids_kept_refl|apply ids_kept_save_relationships].
Qed.

End Callback.

Lemma save_ids_kept fuel : forall self entity w,
  well_formed self ->
  class_of (heap w) (VRef entity) = Some (repo_entity_class self) ->
  ids_kept w (outcome (fst (save fuel self entity w))) (snd (save fuel self entity w)).
Proof.
  induction fuel as [|fuel IH]; intros self entity w Hwf Hcls.
  - apply ids_kept_refl.
  - cbn [save]. now apply ids_kept_save_body.
Qed.

(** X11. An id is assigned once. When a repository saves an instance of
    its class, every entity of the heap that had an id before the call,
    the saved one and the related ones a cascade reaches included, has the
    same id after it, whatever the store returns as [node_id]; only
    entities without an id are given one. No object is removed and every
    entity is still an instance of its class. *)
Theorem save_keeps_assigned_ids
    (fuel : nat) (self : Repository) (entity : nat) (w : World) :
  get_entity_metadata (repo_entity_class self) = Some (repo_metadata self) ->
  class_of (heap w) (VRef entity) = Some (repo_entity_class self) ->
  ids_kept w (outcome (fst (save fuel self entity w))) (snd (save fuel self entity w)).
Proof. apply save_ids_kept. Qed.

End Ids.

(** ** Serialising and hydrating are inverse *)

Section RoundTrip.

Context {schema : Schema}.








End RoundTrip.

Section RoundTripEntity.

Context {schema : Schema} {store : Store}.





End RoundTripEntity.

(** ** The further properties on the examples *)

#[local] Existing Instance TestEntities.schema.
#[local] Existing Instance RefStore.store.

(** [save] on Carol when the store returns an empty result set. *)
Lemma carol_saved_without_row :
  save (store := StubStore.store) 1 (Examples.person_repo 1) 0%nat
    (MoreExamples.answered_with [])
  = (Ret 0%nat,
     after_query (store := StubStore.store) (MoreExamples.answered_with []) []
       (CreateNode "Person" [("name", false); ("age", false)],
        list_to_map [("prop_name", VStr "Carol"); ("prop_age", VInt 41)]) true).
Proof.
  apply (save_without_result_row (store := StubStore.store) 0 (Examples.person_repo 1) 0%nat
           MoreExamples.carol_attrs
           (CreateNode "Person" [("name", false); ("age", false)],
            list_to_map [("prop_name", VStr "Carol"); ("prop_age", VInt 41)])
           [] (MoreExamples.answered_with [])).
  - reflexivity.
  - reflexivity.
  - vm_compute. reflexivity.
  - reflexivity.
Defined.

(** [save] on Carol when the store returns a row with the node only. *)
Lemma carol_saved_without_node_id :
  save (store := StubStore.store) 1 (Examples.person_repo 1) 0%nat
    (MoreExamples.answered_with [RList [VNode (Some 0) []]])
  = (Raise (QueryException "Failed to save entity" IndexError),
     after_query (store := StubStore.store)
       (MoreExamples.answered_with [RList [VNode (Some 0) []]])
       [RList [VNode (Some 0) []]]
       (CreateNode "Person" [("name", false); ("age", false)],
        list_to_map [("prop_name", VStr "Carol"); ("prop_age", VInt 41)]) true).
Proof.
  apply (save_row_without_node_id (store := StubStore.store) 0 (Examples.person_repo 1) 0%nat
           MoreExamples.carol_attrs
           (CreateNode "Person" [("name", false); ("age", false)],
            list_to_map [("prop_name", VStr "Carol"); ("prop_age", VInt 41)])
           [RList [VNode (Some 0) []]] [VNode (Some 0) []] []
           (MoreExamples.answered_with [RList [VNode (Some 0) []]])).
  - reflexivity.
  - reflexivity.
  - vm_compute. reflexivity.
  - reflexivity.
  - cbn. lia.
Defined.


(** [repo.find_all_by_id([1, 9, 3])]: three statements, two entities. *)
Lemma find_all_by_id_on_four_people :
  issued Examples.replace_all
    (snd (find_all_by_id (Examples.person_repo 4) [VInt 1; VInt 9; VInt 3]
            Examples.replace_all))
    [((MatchById "Person" false, {[ "id" := VInt 1 ]}), true);
     ((MatchById "Person" false, {[ "id" := VInt 9 ]}), true);
     ((MatchById "Person" false, {[ "id" := VInt 3 ]}), true)].
Proof.
  destruct (find_all_by_id_one_query_per_id (Examples.person_repo 4)
              [VInt 1; VInt 9; VInt 3] [5%nat; 6%nat] Examples.replace_all)
    as (Hissued & _ & _).
  - vm_compute. reflexivity.
  - exact Hissued.
Defined.

(** [fetch=["nope"]] on a person. *)
Lemma unknown_hint_on_person :
  build_eager_loading_query TestEntities.Person (VInt 1) ["nope"]
  = (EagerLoading "Person" false [], {[ "id" := VInt 1 ]}).
Proof.
  destruct (unknown_fetch_hints_ignored TestEntities.Person "Person" (VInt 1) ["nope"]
              (RList [VNode (Some 1) [("id", VInt 1); ("name", VStr "Bob")]])
              Examples.replace_all) as (Hquery & _).
  - reflexivity.
  - constructor; [reflexivity|constructor].
  - exact Hquery.
Defined.


(** Saving Alice again leaves the ids of the four people as they are. *)
Lemma resave_keeps_ids :
  ids_kept Examples.replace_all
    (outcome (fst (save 3 (Examples.person_repo 4) 0%nat Examples.replace_all)))
    (snd (save 3 (Examples.person_repo 4) 0%nat Examples.replace_all)).
Proof.
  apply (save_keeps_assigned_ids 3 (Examples.person_repo 4) 0%nat Examples.replace_all).
  - reflexivity.
  - reflexivity.
Defined.


